(** * Streaming endpoint of GoToSocial: internal/api/client/streaming/stream.go

    A shallow embedding of [StreamGETHandler], [handleWSConn],
    [readFromWSConn] and [writeToWSConn], and the properties of the
    connection life cycle that the specification states about them.

    Conventions of the embedding:
    - a Go [map[string]string] / [map[string]bool] is a [gmap string _];
    - calls to collaborators that live outside the file (the stream
      processor, the websocket upgrader, oauth, the error handler, the
      logger) are recorded, in program order, in a trace of [Event]s;
    - a goroutine is a thread of a small-step transition system whose
      labels are the scheduler's and the environment's choices. *)

From Stdlib Require Import Ascii.
From stdpp Require Import base strings list gmap fin_maps.

Open Scope string_scope.
Open Scope list_scope.

(** ** Data *)

(** Levels of the logger ([internal/log]). *)
Inductive Level := TRACE | DEBUG | INFO | WARN | ERROR.

(** One log line: its level and its format string (the formatted
    arguments are not kept). *)
Record LogEntry := mkLog { lvl : Level; fmt : string }.

(** [gtserror.WithCode]: an error together with an HTTP status code. *)
Record WithCode := mkWithCode { Code : Z; Text : string }.

Definition StatusBadRequest : Z := 400.
Definition StatusUnauthorized : Z := 401.

(** [gtserror.NewErrorUnauthorized(err, err.Error())]. *)
Definition NewErrorUnauthorized (err : string) : WithCode :=
  mkWithCode StatusUnauthorized err.

(** [gtserror.NewErrorBadRequest(err)]. *)
Definition NewErrorBadRequest (err : string) : WithCode :=
  mkWithCode StatusBadRequest err.

(** [gtsmodel.Account]; the file reads the [Username] only. *)
Record Account := mkAccount { Username : string }.

(** A Go channel that is only ever closed (never sent on from this
    file): [stream.Hangup]. *)
Inductive chan := ChanOpen | ChanClosed.

(** [close(ch)]: closing a closed channel panics ([None]). *)
Definition close (ch : chan) : option chan :=
  match ch with
  | ChanOpen => Some ChanClosed
  | ChanClosed => None
  end.

(** [streampkg.Stream]: the session.  [Messages] is the environment's
    (it shows up as the labels of the outbound pump). *)
Record Stream := mkStream {
  ID : string;
  StreamTypes : gmap string bool;
  Hangup : chan
}.

(** [*websocket.Conn], an opaque handle. *)
Definition Conn := nat.

(** [*gin.Context]: the URL query in the order of the request, and the
    request headers. *)
Record Context := mkContext {
  query : list (string * string);
  header : list (string * string)
}.

Fixpoint first_value (k : string) (kvs : list (string * string)) : option string :=
  match kvs with
  | [] => None
  | (k', v) :: rest => if decide (k' = k) then Some v else first_value k rest
  end.

(** [c.Query(key)]: the first value of the key, or the empty string
    when the key is absent. *)
Definition Query (c : Context) (key : string) : string :=
  default "" (first_value key (query c)).

(** [c.GetHeader(key)]: the first value of the header, or the empty
    string. *)
Definition GetHeader (c : Context) (key : string) : string :=
  default "" (first_value key (header c)).

(** ** The trace of a request handler *)

(** What [StreamGETHandler] does to the outside, in program order. *)
Inductive Event :=
| CallAuthorize (token : string)
| CallAuthed
| CallErrorHandler (e : WithCode)
| CallOpen (account : Account) (streamType : string)
| CallUpgrade
| Log (e : LogEntry)
| CloseHangup (streamID : string)
| GoHandleWSConn (username : string) (wsConn : Conn) (stream : Stream).

(** A procedure: the events so far, and the value, or [None] after a
    [return]. *)
Definition Proc (A : Type) : Type := (list Event * option A)%type.

#[global] Instance Proc_ret : MRet Proc := λ A x, ([], Some x).

#[global] Instance Proc_bind : MBind Proc := λ A B f p,
  match p.2 with
  | Some a => (p.1 ++ (f a).1, (f a).2)
  | None => (p.1, None)
  end.

Definition emit (e : Event) : Proc unit := ([e], Some ()).
Definition call {A} (e : Event) (result : A) : Proc A := ([e], Some result).
Definition Return {A} : Proc A := ([], None).

(** [m *Module]: the collaborators the handler reaches through its
    receiver, as the functions of the request they are. *)
Record Module := mkModule {
  (** [m.processor.Stream().Authorize(ctx, token)] *)
  Authorize : string → Account + WithCode;
  (** [m.processor.Stream().Open(ctx, account, streamType)] *)
  Open : Account → string → Stream + WithCode;
  (** [m.wsUpgrade.Upgrade(c.Writer, c.Request, nil)] *)
  wsUpgrade : Context → option Conn;
  (** [m.dTicker], in nanoseconds *)
  dTicker : Z
}.

(** What this file takes from the rest of the repository: the constants
    of the package that are declared next to it (streaming.go), the
    topic vocabulary of [internal/stream], and [oauth.Authed]. *)
Class Env := mkEnv {
  AccessTokenQueryKey : string;
  AccessTokenHeader : string;
  StreamQueryKey : string;
  StreamListKey : string;
  StreamTagKey : string;
  (** [streampkg.AllStatusTimelines] *)
  AllStatusTimelines : list string;
  (** [oauth.Authed(c, true, true, true, true)]: the account of the
      ambient session, or an error. *)
  oauth_Authed : Context → Account + string
}.

(** ** The request handler *)

(** Lines 157-162 of [StreamGETHandler]: the token of the query, else
    the token of the header. *)
Definition requestToken `{Env} (c : Context) : string :=
  let token := Query c AccessTokenQueryKey in
  if decide (token = "") then GetHeader c AccessTokenHeader else token.

(** Lines 188-199 of [StreamGETHandler]: the initial stream type. *)
Definition requestStreamType `{Env} (c : Context) : string :=
  let streamType := Query c StreamQueryKey in
  let list := Query c StreamListKey in
  if decide (list ≠ "") then streamType +:+ ":" +:+ list
  else
    let tag := Query c StreamTagKey in
    if decide (tag ≠ "") then streamType +:+ ":" +:+ tag
    else streamType.

Definition StreamGETHandler `{Env} (m : Module) (c : Context) : Proc unit :=
  (* Try query param access token, then the fallback HTTP header. *)
  let token := requestToken c in
  account ←
    (if decide (token ≠ "") then
       (* Token was provided, use it to authorize stream. *)
       r ← call (CallAuthorize token) (Authorize m token);
       match r with
       | inr errWithCode => emit (CallErrorHandler errWithCode);; Return
       | inl account => mret account
       end
     else
       (* No explicit token was provided: try regular oauth. *)
       r ← call CallAuthed (oauth_Authed c);
       match r with
       | inr err =>
           emit (CallErrorHandler (NewErrorUnauthorized err));; Return
       | inl account => mret account
       end);
  let streamType := requestStreamType c in
  r ← call (CallOpen account streamType) (Open m account streamType);
  match r with
  | inr errWithCode => emit (CallErrorHandler errWithCode);; Return
  | inl stream =>
      r ← call CallUpgrade (wsUpgrade m c);
      match r with
      | None =>
          emit (Log (mkLog ERROR "error upgrading websocket connection: %v"));;
          emit (CloseHangup (ID stream));;
          Return
      | Some wsConn =>
          emit (Log (mkLog INFO "opened websocket connection"));;
          emit (GoHandleWSConn (Username account) wsConn stream)
      end
  end.

(** ** The inbound pump *)

(** The error of a failed [wsConn.ReadJSON]: gorilla's [*CloseError]
    with the close code of the peer, or any other error (of the network,
    or of decoding the frame as a JSON object of strings). *)
Inductive ReadError := CloseError (code : Z) | OtherError.

Definition CloseNormalClosure : Z := 1000.
Definition CloseGoingAway : Z := 1001.
Definition CloseNoStatusReceived : Z := 1005.

(** [websocket.IsUnexpectedCloseError(err, expectedCodes...)] of
    gorilla/websocket: true for a [*CloseError] whose code is none of
    the expected ones, false for every other error. *)
Definition IsUnexpectedCloseError (err : ReadError) (expectedCodes : list Z) : bool :=
  match err with
  | CloseError code =>
      (fix loop (codes : list Z) : bool :=
         match codes with
         | [] => true
         | c :: rest => if decide (code = c) then false else loop rest
         end) expectedCodes
  | OtherError => false
  end.

(** [slices.Contains]. *)
Fixpoint slices_Contains (s : list string) (v : string) : bool :=
  match s with
  | [] => false
  | x :: rest => if decide (x = v) then true else slices_Contains rest v
  end.

(** The result of one [wsConn.ReadJSON(&msg)]. *)
Definition ReadResult : Type := ReadError + gmap string string.

Inductive LoopCtl := Continue | Break.

(** The [default] branch of the [select] of [readFromWSConn] (lines
    321-380): the log lines written, how the iteration leaves the loop,
    and the stream after it.  [stream.Lock()] and [stream.Unlock()]
    bracket the update of [StreamTypes] and leave no trace here. *)
Definition readLoopBody `{Env} (r : ReadResult) (stream : Stream)
  : list LogEntry * LoopCtl * Stream :=
  match r with
  | inl err =>
      ((if IsUnexpectedCloseError err
             [CloseNormalClosure; CloseGoingAway; CloseNoStatusReceived]
        then [mkLog ERROR "error reading from websocket: %v"]
        else []),
       Break, stream)
  | inr msg =>
      let received := mkLog INFO "received message from websocket: %v" in
      match msg !! "type" with
      | None =>
          ([received; mkLog WARN "'type' field not provided"], Continue, stream)
      | Some updateType =>
          match msg !! "stream" with
          | None =>
              ([received; mkLog WARN "'stream' field not provided"],
               Continue, stream)
          | Some updateStream =>
              if negb (slices_Contains AllStatusTimelines updateStream) then
                ([received; mkLog WARN "unknown 'stream' field: %v"],
                 Continue, stream)
              else
                let updateStream :=
                  match msg !! "list" with
                  | Some updateList => updateStream +:+ ":" +:+ updateList
                  | None => updateStream
                  end in
                if decide (updateType = "subscribe") then
                  ([received], Continue,
                   mkStream (ID stream)
                            (<[updateStream := true]> (StreamTypes stream))
                            (Hangup stream))
                else if decide (updateType = "unsubscribe") then
                  ([received], Continue,
                   mkStream (ID stream)
                            (delete updateStream (StreamTypes stream))
                            (Hangup stream))
                else
                  ([received; mkLog WARN "invalid 'type' field: %v"],
                   Continue, stream)
          end
      end
  end.

(** What one iteration of the read loop meets: the context already
    cancelled, or the next result of the connection. *)
Inductive ReadInput := CtxDone | Read (r : ReadResult).

(** A pump either returned, or is still blocked on its connection
    when the inputs are used up. *)
Inductive PumpStatus := Returned | Blocked.

Definition hasReturned (status : PumpStatus) : bool :=
  match status with
  | Returned => true
  | Blocked => false
  end.

(** [readFromWSConn] on the inputs its iterations meet. *)
Fixpoint readFromWSConn `{Env} (inputs : list ReadInput) (stream : Stream)
  : list LogEntry * PumpStatus * Stream :=
  let finished := mkLog DEBUG "finished reading from websocket connection" in
  match inputs with
  | [] => ([], Blocked, stream)
  | CtxDone :: _ => ([finished], Returned, stream)
  | Read r :: rest =>
      match readLoopBody r stream with
      | (logs, Break, stream') => (logs ++ [finished], Returned, stream')
      | (logs, Continue, stream') =>
          match readFromWSConn rest stream' with
          | (logs', status, stream'') => (logs ++ logs', status, stream'')
          end
      end
  end.

(** Lines 264-267 of [handleWSConn], the goroutine of the inbound pump:
    [defer cancel()] runs when [readFromWSConn] returns.  The second
    component tells whether [cancel] was called. *)
Definition readerGoroutine `{Env} (inputs : list ReadInput) (stream : Stream)
  : list LogEntry * bool * Stream :=
  match readFromWSConn inputs stream with
  | (logs, Returned, stream') => (logs, true, stream')
  | (logs, Blocked, stream') => (logs, false, stream')
  end.

(** ** The outbound pump *)

(** [*time.Ticker], as far as this file drives it: its period, how many
    times it was reset, and whether it was stopped. *)
Record Ticker := mkTicker { period : Z; resets : nat; stopped : bool }.

Definition NewTicker (d : Z) : Ticker := mkTicker d 0 false.
Definition Ticker_Reset (t : Ticker) (d : Z) : Ticker :=
  mkTicker d (S (resets t)) (stopped t).
Definition Ticker_Stop (t : Ticker) : Ticker :=
  mkTicker (period t) (resets t) true.

(** A frame written to the connection: an event of the processor (its
    payload is opaque here), or a ping control frame. *)
Inductive Frame := EventFrame (msg : string) | PingFrame.

(** The case the [select] of [writeToWSConn] takes, with the result of
    the write it makes ([ok] when the write returns no error). *)
Inductive WriteInput :=
| WCtxDone
| WMessage (msg : string) (ok : bool)
| WTick (ok : bool).

(** One iteration of the write loop (lines 410-434): log lines, how it
    leaves the loop, the frames that reached the connection, the
    ticker. *)
Definition writeLoopBody (m : Module) (w : WriteInput) (pinger : Ticker)
  : list LogEntry * LoopCtl * list Frame * Ticker :=
  match w with
  | WCtxDone => ([], Break, [], pinger)
  | WMessage msg ok =>
      let tracing := mkLog TRACE "writing message to websocket: %+v" in
      if ok then
        (* Reset pinger on successful send. *)
        ([tracing], Continue, [EventFrame msg], Ticker_Reset pinger (dTicker m))
      else
        ([tracing; mkLog DEBUG "error writing json to websocket: %v"],
         Break, [], pinger)
  | WTick ok =>
      let tracing := mkLog TRACE "writing ping control message to websocket" in
      if ok then ([tracing], Continue, [PingFrame], pinger)
      else
        ([tracing; mkLog DEBUG "error writing ping to websocket: %v"],
         Break, [], pinger)
  end.

(** [writeToWSConn] on the cases its [select] takes, one per iteration:
    log lines, status, the frames that reached the connection, the
    ticker. *)
Fixpoint writeToWSConn (m : Module) (inputs : list WriteInput) (pinger : Ticker)
  : list LogEntry * PumpStatus * list Frame * Ticker :=
  let finished := mkLog DEBUG "finished writing to websocket connection" in
  match inputs with
  | [] => ([], Blocked, [], pinger)
  | w :: rest =>
      match writeLoopBody m w pinger with
      | (logs, Break, frames, pinger') =>
          (logs ++ [finished], Returned, frames, pinger')
      | (logs, Continue, frames, pinger') =>
          match writeToWSConn m rest pinger' with
          | (logs', status, frames', pinger'') =>
              (logs ++ logs', status, frames ++ frames', pinger'')
          end
      end
  end.

(** Lines 270-273 of [handleWSConn], the goroutine of the outbound
    pump: [defer cancel()] runs when [writeToWSConn] returns.  The
    second component tells whether [cancel] was called. *)
Definition writerGoroutine (m : Module) (inputs : list WriteInput) (pinger : Ticker)
  : list LogEntry * bool * list Frame * Ticker :=
  match writeToWSConn m inputs pinger with
  | (logs, status, frames, pinger') => (logs, hasReturned status, frames, pinger')
  end.

(** ** The connection: [handleWSConn] and its two goroutines *)

(** Where [handleWSConn] stands. *)
Inductive CoordPc :=
| CStart            (* line 264, before [go] of the reader *)
| CReaderStarted    (* line 270, before [go] of the writer *)
| CWaiting          (* line 277, blocked on [<-ctx.Done()] *)
| CWoken            (* line 280, before [wsConn.Close()] *)
| CConnClosed       (* line 286, before [close(stream.Hangup)] *)
| CHangupClosed     (* line 289, before [pinger.Stop()] *)
| CPingerStopped    (* line 291, before the last log line *)
| CReturned.

(** Where the goroutine of [readFromWSConn] stands. *)
Inductive ReaderPc :=
| RNotStarted
| RSelect           (* line 315, at the [select] *)
| RReadJSON         (* line 323, blocked in [wsConn.ReadJSON] *)
| RLeftLoop         (* line 384, after [break readLoop] *)
| RExited.          (* returned, the deferred [cancel()] has run *)

(** Where the goroutine of [writeToWSConn] stands. *)
Inductive WriterPc :=
| WNotStarted
| WSelect           (* line 410, blocked in the [select] *)
| WLeftLoop         (* line 437, after [break writeLoop] *)
| WExited.          (* returned, the deferred [cancel()] has run *)

(** The state of one connection. *)
Record Session := mkSession {
  ctxDone : bool;             (* [ctx] was cancelled *)
  coordinator : CoordPc;
  reader : ReaderPc;
  writer : WriterPc;
  stream : Stream;
  connClosed : bool;          (* [wsConn.Close()] was called *)
  pinger : Ticker;
  written : list Frame;       (* frames that reached the connection *)
  logs : list LogEntry
}.

(** The choices of the scheduler and of the environment. *)
Inductive Label :=
| CoordGoReader
| CoordGoWriter
| CoordCtxDone
| CoordConnClose (ok : bool)
| CoordCloseHangup
| CoordPingerStop
| CoordReturn
| ReaderAtSelect
| ReaderReadJSON (r : ReadResult)
| ReaderReturn
| WriterAtSelect (w : WriteInput)
| WriterReturn.

Inductive Outcome :=
| Disabled            (* the label cannot be taken in this state *)
| Panic               (* close of a closed channel *)
| Next (s : Session).

(** Lines 250-261 of [handleWSConn]: fresh context, fresh ticker. *)
Definition handleWSConn_init (m : Module) (stream : Stream) : Session :=
  mkSession false CStart RNotStarted WNotStarted stream false
            (NewTicker (dTicker m)) [] [].

Definition step `{Env} (m : Module) (l : Label) (s : Session) : Outcome :=
  let '(mkSession done co rd wr st cc pg wn lg) := s in
  match l, co, rd, wr with
  (* handleWSConn *)
  | CoordGoReader, CStart, _, _ =>
      Next (mkSession done CReaderStarted RSelect wr st cc pg wn lg)
  | CoordGoWriter, CReaderStarted, _, _ =>
      Next (mkSession done CWaiting rd WSelect st cc pg wn lg)
  | CoordCtxDone, CWaiting, _, _ =>
      if done then Next (mkSession done CWoken rd wr st cc pg wn lg)
      else Disabled
  | CoordConnClose ok, CWoken, _, _ =>
      Next (mkSession done CConnClosed rd wr st true pg wn
              (if ok then lg
               else lg ++ [mkLog ERROR "error closing websocket connection: %v"]))
  | CoordCloseHangup, CConnClosed, _, _ =>
      match close (Hangup st) with
      | Some ch =>
          Next (mkSession done CHangupClosed rd wr
                  (mkStream (ID st) (StreamTypes st) ch) cc pg wn lg)
      | None => Panic
      end
  | CoordPingerStop, CHangupClosed, _, _ =>
      Next (mkSession done CPingerStopped rd wr st cc (Ticker_Stop pg) wn lg)
  | CoordReturn, CPingerStopped, _, _ =>
      Next (mkSession done CReturned rd wr st cc pg wn
              (lg ++ [mkLog INFO "closed websocket connection"]))
  (* the goroutine of readFromWSConn *)
  | ReaderAtSelect, _, RSelect, _ =>
      Next (mkSession done co (if done then RLeftLoop else RReadJSON)
              wr st cc pg wn lg)
  | ReaderReadJSON r, _, RReadJSON, _ =>
      match readLoopBody r st with
      | (logs', Continue, st') =>
          Next (mkSession done co RSelect wr st' cc pg wn (lg ++ logs'))
      | (logs', Break, st') =>
          Next (mkSession done co RLeftLoop wr st' cc pg wn (lg ++ logs'))
      end
  | ReaderReturn, _, RLeftLoop, _ =>
      Next (mkSession true co RExited wr st cc pg wn
              (lg ++ [mkLog DEBUG "finished reading from websocket connection"]))
  (* the goroutine of writeToWSConn *)
  | WriterAtSelect w, _, _, WSelect =>
      match w, done with
      | WCtxDone, false => Disabled
      | _, _ =>
          match writeLoopBody m w pg with
          | (logs', Continue, frames, pg') =>
              Next (mkSession done co rd WSelect st cc pg' (wn ++ frames)
                      (lg ++ logs'))
          | (logs', Break, frames, pg') =>
              Next (mkSession done co rd WLeftLoop st cc pg' (wn ++ frames)
                      (lg ++ logs'))
          end
      end
  | WriterReturn, _, _, WLeftLoop =>
      Next (mkSession true co rd WExited st cc pg wn
              (lg ++ [mkLog DEBUG "finished writing to websocket connection"]))
  | _, _, _, _ => Disabled
  end.

(** A schedule, run from a state. *)
Fixpoint run `{Env} (m : Module) (ls : list Label) (s : Session) : Outcome :=
  match ls with
  | [] => Next s
  | l :: rest =>
      match step m l s with
      | Next s' => run m rest s'
      | o => o
      end
  end.

(** ** A hub for the examples *)

(** The stream part of a stream type: the text before its first colon. *)
Fixpoint streamPart (streamType : string) : string :=
  match streamType with
  | EmptyString => EmptyString
  | String a rest =>
      if decide (a = ":"%char) then EmptyString else String a (streamPart rest)
  end.

(** An [Open] for the example modules.  [m.processor.Stream().Open] is
    not code of this file, and no statement about the handler assumes
    anything of it; this one refuses, with a bad-request error, a stream
    type whose stream part is empty or that [invalid] names, and
    otherwise returns a new session that holds the stream type as its
    only topic, with an open hangup signal. *)
Definition exampleOpen (invalid : string → bool) (newID : Account → string → string)
    (account : Account) (streamType : string) : Stream + WithCode :=
  if decide (streamPart streamType = "") then
    inr (NewErrorBadRequest "invalid stream type")
  else if invalid streamType then
    inr (NewErrorBadRequest "invalid stream type")
  else
    inl (mkStream (newID account streamType) {[ streamType := true ]} ChanOpen).

(** ** Instances for the examples *)

(** Parameter names as in the requests of the specification
    ([stream=hashtag&tag=foo], [stream=list&list=01H3]); no ambient
    session. *)
Definition exampleEnv : Env :=
  mkEnv "access_token" "Sec-Websocket-Protocol" "stream" "list" "tag"
        ["public"; "user"; "direct"; "list"; "hashtag"]
        (λ _, inr "token not supplied").

(** A module that knows one token, refuses to open a session for a
    stream type without stream part, and whose upgrade succeeds; the
    keepalive interval is 30s. *)
Definition exampleModule : Module :=
  mkModule
    (λ token, if decide (token = "s3cret") then inl (mkAccount "alice")
              else inr (NewErrorUnauthorized "invalid token"))
    (exampleOpen (λ _, false) (λ _ _, "01STREAM"))
    (λ _, Some 0%nat)
    30000000000.

Definition exampleStream : Stream :=
  mkStream "01STREAM" {[ "user" := true ]} ChanOpen.

(** The outcome of lines 157-186 of [StreamGETHandler], for the
    statements below: the call that authorizes the request, and the
    account or the error that the handler gets from it. *)
Definition authorization `{Env} (m : Module) (c : Context)
  : Event * (Account + WithCode) :=
  if decide (requestToken c ≠ "") then
    (CallAuthorize (requestToken c), Authorize m (requestToken c))
  else
    (CallAuthed,
     match oauth_Authed c with
     | inl account => inl account
     | inr err => inr (NewErrorUnauthorized err)
     end).

(** A request without [stream] parameter and with a token that the
    example module does not know. *)
Definition requestBadToken : Context :=
  mkContext [("access_token", "wr0ng")] [].

(** The same, with the token that the example module knows. *)
Definition requestNoStream : Context :=
  mkContext [("stream", ""); ("access_token", "s3cret")] [].

(** [stream=hashtag&tag=foo] and [stream=list&list=01H3&tag=foo], with
    the token in the query. *)
Definition requestHashtag : Context :=
  mkContext [("stream", "hashtag"); ("tag", "foo"); ("access_token", "s3cret")] [].

Definition requestList : Context :=
  mkContext [("stream", "list"); ("list", "01H3"); ("tag", "foo");
             ("access_token", "s3cret")] [].

(** [stream=user], with the token in the header. *)
Definition requestHeaderToken : Context :=
  mkContext [("stream", "user")] [("Sec-Websocket-Protocol", "s3cret")].

(** [stream=user], with the token in the query. *)
Definition requestQueryToken : Context :=
  mkContext [("stream", "user"); ("access_token", "s3cret")] [].

(** ** Vocabulary of the statements about the inbound pump *)

(** The stream after one read, and after a run of the pump. *)
Definition streamAfter `{Env} (inputs : list ReadInput) (stream : Stream) : Stream :=
  (readFromWSConn inputs stream).2.

Definition logsOf `{Env} (inputs : list ReadInput) (stream : Stream) : list LogEntry :=
  (readFromWSConn inputs stream).1.1.


(** A read failure that is an expected close: the peer closed with
    normal closure, going away, or no status. *)
Definition expectedClose (err : ReadError) : Prop :=
  ∃ code, err = CloseError code ∧
          code ∈ [CloseNormalClosure; CloseGoingAway; CloseNoStatusReceived].

Definition errorLogged (logs : list LogEntry) : Prop :=
  ∃ e, e ∈ logs ∧ lvl e = ERROR.

(** The malformed control frames of the specification. *)
Definition malformed `{Env} (msg : gmap string string) : Prop :=
  msg !! "type" = None ∨
  msg !! "stream" = None ∨
  (∃ updateStream, msg !! "stream" = Some updateStream ∧
                   updateStream ∉ AllStatusTimelines) ∨
  (∃ updateType, msg !! "type" = Some updateType ∧
                 updateType ≠ "subscribe" ∧ updateType ≠ "unsubscribe").

(** A well-formed subscribe frame for a topic key. *)
Definition subscribesTo `{Env} (msg : gmap string string) (key : string) : Prop :=
  msg !! "type" = Some "subscribe" ∧
  ∃ updateStream,
    msg !! "stream" = Some updateStream ∧
    updateStream ∈ AllStatusTimelines ∧
    key = match msg !! "list" with
          | Some updateList => updateStream +:+ ":" +:+ updateList
          | None => updateStream
          end.

(** The membership entries of a key in a topic set. *)
Definition entriesOf (key : string) (topics : gmap string bool) : list (string * bool) :=
  filter (λ kv, kv.1 = key) (map_to_list topics).

(** Control frames for the examples. *)
Definition frameSubscribePublic : gmap string string :=
  list_to_map [("type", "subscribe"); ("stream", "public")].


Definition frameSubscribeEmptyList : gmap string string :=
  list_to_map [("type", "subscribe"); ("stream", "user"); ("list", "")].

Definition frameUnknownStream : gmap string string :=
  list_to_map [("type", "subscribe"); ("stream", "nonsense")].

(** A qualifier of a given length, and the subscribe frame for a topic
    and a qualifier. *)
Fixpoint padding (n : nat) : string :=
  match n with
  | O => ""
  | S n' => String "x"%char (padding n')
  end.

Definition subscribeFrame (topic qualifier : string) : gmap string string :=
  <["type" := "subscribe"]> (<["stream" := topic]> (<["list" := qualifier]> ∅)).

(** ** Vocabulary of the statements about the connection *)





Definition isCloseHangup (e : Event) : bool :=
  match e with
  | CloseHangup _ => true
  | _ => false
  end.

Definition isGoHandleWSConn (e : Event) : bool :=
  match e with
  | GoHandleWSConn _ _ _ => true
  | _ => false
  end.

(** How many times a trace of the handler closes a hangup signal, and
    how many connections it starts. *)
Definition handlerCloses (tr : list Event) : nat :=
  length (List.filter isCloseHangup tr).

Definition handlerStarts (tr : list Event) : nat :=
  length (List.filter isGoHandleWSConn tr).



(** A write fails: the outbound pump returns first, and the inbound
    pump learns of it when its read fails on the closed connection. *)
Definition scheduleWriterFirst : list Label :=
  [CoordGoReader; CoordGoWriter; ReaderAtSelect;
   WriterAtSelect (WMessage "update" false); WriterReturn;
   CoordCtxDone; CoordConnClose true;
   ReaderReadJSON (inl OtherError); ReaderReturn;
   CoordCloseHangup; CoordPingerStop; CoordReturn].


(** ** Vocabulary of the further statements *)

(** The four ways through [StreamGETHandler], as the trace each leaves. *)
Definition handlerPaths `{Env} (m : Module) (c : Context) : list Event :=
  let streamType := requestStreamType c in
  match authorization m c with
  | (authCall, inr e) => [authCall; CallErrorHandler e]
  | (authCall, inl account) =>
      match Open m account streamType with
      | inr e => [authCall; CallOpen account streamType; CallErrorHandler e]
      | inl stream =>
          match wsUpgrade m c with
          | None =>
              [authCall; CallOpen account streamType; CallUpgrade;
               Log (mkLog ERROR "error upgrading websocket connection: %v");
               CloseHangup (ID stream)]
          | Some wsConn =>
              [authCall; CallOpen account streamType; CallUpgrade;
               Log (mkLog INFO "opened websocket connection");
               GoHandleWSConn (Username account) wsConn stream]
          end
      end
  end.

Definition isAuthCall (e : Event) : bool :=
  match e with
  | CallAuthorize _ | CallAuthed => true
  | _ => false
  end.

Definition isErrorHandler (e : Event) : bool :=
  match e with
  | CallErrorHandler _ => true
  | _ => false
  end.

(** A well-formed control frame: it subscribes to ([true]) or
    unsubscribes from ([false]) a topic key. *)
Definition controlFrame `{Env} (msg : gmap string string) (subscribe : bool)
    (key : string) : Prop :=
  msg !! "type" = Some (if subscribe then "subscribe" else "unsubscribe") ∧
  ∃ updateStream,
    msg !! "stream" = Some updateStream ∧
    updateStream ∈ AllStatusTimelines ∧
    key = match msg !! "list" with
          | Some updateList => updateStream +:+ ":" +:+ updateList
          | None => updateStream
          end.

(** What a well-formed control frame does to a topic set. *)
Definition applyFrame (subscribe : bool) (key : string)
    (topics : gmap string bool) : gmap string bool :=
  if subscribe then <[key := true]> topics else delete key topics.

Definition isError (e : LogEntry) : bool :=
  match lvl e with
  | ERROR => true
  | _ => false
  end.

Definition lowSeverity (e : LogEntry) : bool :=
  match lvl e with
  | TRACE | DEBUG => true
  | _ => false
  end.

Definition isReadFrame (i : ReadInput) : bool :=
  match i with
  | Read (inr _) => true
  | _ => false
  end.

(** The iteration of the write loop goes on: a write that succeeded. *)
Definition writeContinues (w : WriteInput) : bool :=
  match w with
  | WMessage _ true | WTick true => true
  | _ => false
  end.

(** The frame that a successful write puts on the connection. *)
Definition frameOf (w : WriteInput) : list Frame :=
  match w with
  | WMessage msg true => [EventFrame msg]
  | WTick true => [PingFrame]
  | _ => []
  end.

(** The inputs that the write loop gets to before it leaves. *)
Fixpoint served (inputs : list WriteInput) : list WriteInput :=
  match inputs with
  | [] => []
  | w :: rest => if writeContinues w then w :: served rest else []
  end.

Definition eventOf (f : Frame) : option string :=
  match f with
  | EventFrame msg => Some msg
  | PingFrame => None
  end.

Definition messageOf (w : WriteInput) : option string :=
  match w with
  | WMessage msg true => Some msg
  | _ => None
  end.

(** The states that a step leads to, label by label: what [step]
    requires of the state it leaves, and the state it reaches. *)
Definition stepShape `{Env} (m : Module) (l : Label) (s s' : Session) : Prop :=
  match l with
  | CoordGoReader =>
      coordinator s = CStart ∧
      s' = mkSession (ctxDone s) CReaderStarted RSelect (writer s) (stream s)
             (connClosed s) (pinger s) (written s) (logs s)
  | CoordGoWriter =>
      coordinator s = CReaderStarted ∧
      s' = mkSession (ctxDone s) CWaiting (reader s) WSelect (stream s)
             (connClosed s) (pinger s) (written s) (logs s)
  | CoordCtxDone =>
      coordinator s = CWaiting ∧ ctxDone s = true ∧
      s' = mkSession (ctxDone s) CWoken (reader s) (writer s) (stream s)
             (connClosed s) (pinger s) (written s) (logs s)
  | CoordConnClose ok =>
      coordinator s = CWoken ∧
      s' = mkSession (ctxDone s) CConnClosed (reader s) (writer s) (stream s)
             true (pinger s) (written s)
             (if ok then logs s
              else logs s ++ [mkLog ERROR "error closing websocket connection: %v"])
  | CoordCloseHangup =>
      coordinator s = CConnClosed ∧ Hangup (stream s) = ChanOpen ∧
      s' = mkSession (ctxDone s) CHangupClosed (reader s) (writer s)
             (mkStream (ID (stream s)) (StreamTypes (stream s)) ChanClosed)
             (connClosed s) (pinger s) (written s) (logs s)
  | CoordPingerStop =>
      coordinator s = CHangupClosed ∧
      s' = mkSession (ctxDone s) CPingerStopped (reader s) (writer s) (stream s)
             (connClosed s) (Ticker_Stop (pinger s)) (written s) (logs s)
  | CoordReturn =>
      coordinator s = CPingerStopped ∧
      s' = mkSession (ctxDone s) CReturned (reader s) (writer s) (stream s)
             (connClosed s) (pinger s) (written s)
             (logs s ++ [mkLog INFO "closed websocket connection"])
  | ReaderAtSelect =>
      reader s = RSelect ∧
      s' = mkSession (ctxDone s) (coordinator s)
             (if ctxDone s then RLeftLoop else RReadJSON) (writer s) (stream s)
             (connClosed s) (pinger s) (written s) (logs s)
  | ReaderReadJSON r =>
      reader s = RReadJSON ∧
      s' = mkSession (ctxDone s) (coordinator s)
             (match (readLoopBody r (stream s)).1.2 with
              | Continue => RSelect
              | Break => RLeftLoop
              end)
             (writer s) (readLoopBody r (stream s)).2
             (connClosed s) (pinger s) (written s)
             (logs s ++ (readLoopBody r (stream s)).1.1)
  | ReaderReturn =>
      reader s = RLeftLoop ∧
      s' = mkSession true (coordinator s) RExited (writer s) (stream s)
             (connClosed s) (pinger s) (written s)
             (logs s ++ [mkLog DEBUG "finished reading from websocket connection"])
  | WriterAtSelect w =>
      writer s = WSelect ∧ (w = WCtxDone → ctxDone s = true) ∧
      s' = mkSession (ctxDone s) (coordinator s) (reader s)
             (match (writeLoopBody m w (pinger s)).1.1.2 with
              | Continue => WSelect
              | Break => WLeftLoop
              end)
             (stream s) (connClosed s) (writeLoopBody m w (pinger s)).2
             (written s ++ (writeLoopBody m w (pinger s)).1.2)
             (logs s ++ (writeLoopBody m w (pinger s)).1.1.1)
  | WriterReturn =>
      writer s = WLeftLoop ∧
      s' = mkSession true (coordinator s) (reader s) WExited (stream s)
             (connClosed s) (pinger s) (written s)
             (logs s ++ [mkLog DEBUG "finished writing to websocket connection"])
  end.











(** Frames and requests for the examples. *)
Definition frameUnsubscribeUser : gmap string string :=
  list_to_map [("type", "unsubscribe"); ("stream", "user")].

Definition frameUnsubscribePublic : gmap string string :=
  list_to_map [("type", "unsubscribe"); ("stream", "public")].

(** A query token and a different header token. *)
Definition requestBothTokens : Context :=
  mkContext [("stream", "user"); ("access_token", "s3cret")]
            [("Sec-Websocket-Protocol", "wr0ng")].

(** States of a connection for the examples: the inbound pump blocked
    in its read, and the inbound pump out of its loop. *)
Definition sessionReading : Session :=
  mkSession false CWaiting RReadJSON WSelect exampleStream false
            (NewTicker (dTicker exampleModule)) [] [].

Definition sessionReaderLeft : Session :=
  mkSession false CWaiting RLeftLoop WSelect exampleStream false
            (NewTicker (dTicker exampleModule)) [] [].

(** A module whose processor opens a session for every stream type. *)
Definition permissiveModule : Module :=
  mkModule (Authorize exampleModule)
           (λ _ streamType,
              inl (mkStream "01STREAM" {[ streamType := true ]} ChanOpen))
           (wsUpgrade exampleModule)
           (dTicker exampleModule).

(** What reaches the inbound pump on its connection: the close of the
    peer with its code, a failure of the transport, or a data frame,
    with what its payload decodes to as a JSON object of strings
    ([None] when it does not decode as one). *)
Inductive Arrival :=
| PeerClosed (code : Z)
| TransportFailed
| FrameArrived (decoded : option (gmap string string)).

(** [wsConn.ReadJSON(&msg)] of gorilla/websocket: it takes the next
    message of the connection, which fails with a [*CloseError] when the
    peer closed and with the error of the network when the transport
    failed, and decodes the payload into [msg] with encoding/json; a
    payload that is no JSON object of strings (a [type] that is a
    number, a text that is no JSON) makes the decoder fail, with an
    error that is no [*CloseError]. *)
Definition ReadJSON (a : Arrival) : ReadResult :=
  match a with
  | PeerClosed code => inl (CloseError code)
  | TransportFailed => inl OtherError
  | FrameArrived None => inl OtherError
  | FrameArrived (Some msg) => inr msg
  end.

(** ** Properties of the request handler *)

Section Handler.
Context `{Env}.

Ltac handler_cases m c :=
  unfold mbind, Proc_bind, mret, Proc_ret, call, emit, Return;
  simpl;
  repeat first
    [ progress simpl
    | match goal with
      | |- context [decide (?P)] => destruct (decide P)
      | |- context [Authorize m ?t] => destruct (Authorize m t) eqn:?
      | |- context [oauth_Authed c] => destruct (oauth_Authed c) eqn:?
      | |- context [Open m ?a ?k] => destruct (Open m a k) eqn:?
      | |- context [wsUpgrade m c] => destruct (wsUpgrade m c) eqn:?
      end ].

Ltac not_in_trace :=
  let Hin := fresh "Hin" in
  intros Hin;
  repeat (apply elem_of_cons in Hin as [Hin | Hin]; [ done | ]);
  by apply elem_of_nil in Hin.

Lemma requestStreamType_cases (c : Context) :
  requestStreamType c =
    if decide (Query c StreamListKey ≠ "") then
      Query c StreamQueryKey +:+ ":" +:+ Query c StreamListKey
    else if decide (Query c StreamTagKey ≠ "") then
      Query c StreamQueryKey +:+ ":" +:+ Query c StreamTagKey
    else Query c StreamQueryKey.
Proof. reflexivity. Qed.

(** The handler opens a session with the stream type that
    [requestStreamType] computes, and with no other. *)
Lemma handler_opens_requestStreamType (m : Module) (c : Context) account key :
  CallOpen account key ∈ (StreamGETHandler m c).1 → key = requestStreamType c.
Proof.
  unfold StreamGETHandler.
  generalize (requestStreamType c), (requestToken c). intros k t.
  handler_cases m c; intros Hin;
    repeat (apply elem_of_cons in Hin as [Hin | Hin]; [ congruence | ]);
    by apply elem_of_nil in Hin.
Qed.

(** C5. For every request, the initial topic key that the handler
    computes and opens the session with is the [stream] parameter alone
    when [list] and [tag] are both empty, [stream:list] when [list] is
    not empty, and [stream:tag] when [list] is empty and [tag] is not:
    [list] takes precedence over [tag].  (It holds for every value of
    [stream], so for the non-empty ones too.) *)
Theorem initial_topic_key (m : Module) (c : Context) :
  let stream := Query c StreamQueryKey in
  let list := Query c StreamListKey in
  let tag := Query c StreamTagKey in
  (list = "" → tag = "" → requestStreamType c = stream) ∧
  (list ≠ "" → requestStreamType c = stream +:+ ":" +:+ list) ∧
  (list = "" → tag ≠ "" → requestStreamType c = stream +:+ ":" +:+ tag) ∧
  (∀ account key,
     CallOpen account key ∈ (StreamGETHandler m c).1 →
     key = requestStreamType c).
Proof.
  simpl. rewrite requestStreamType_cases.
  repeat split.
  - intros Hl Ht. rewrite Hl, Ht. by repeat case_decide.
  - intros Hl. by case_decide.
  - intros Hl Ht. rewrite Hl. repeat case_decide; congruence.
  - intros account key Hin. rewrite <- requestStreamType_cases.
    by eapply handler_opens_requestStreamType.
Qed.

Lemma requestToken_cases (c : Context) :
  requestToken c =
    if decide (Query c AccessTokenQueryKey = "") then GetHeader c AccessTokenHeader
    else Query c AccessTokenQueryKey.
Proof. reflexivity. Qed.

(** The handler reads the request through [requestToken],
    [requestStreamType], [oauth.Authed] and the upgrader only. *)
Lemma handler_same_inputs (m : Module) (c c' : Context) :
  requestToken c = requestToken c' →
  requestStreamType c = requestStreamType c' →
  oauth_Authed c = oauth_Authed c' →
  wsUpgrade m c = wsUpgrade m c' →
  StreamGETHandler m c = StreamGETHandler m c'.
Proof.
  unfold StreamGETHandler. by intros -> -> -> ->.
Qed.

Lemma handler_authorize_calls (m : Module) (c : Context) token :
  CallAuthorize token ∈ (StreamGETHandler m c).1 ↔
  token ≠ "" ∧ token = requestToken c.
Proof.
  unfold StreamGETHandler.
  generalize (requestStreamType c), (requestToken c). intros k t.
  handler_cases m c; (split; [ intros Hin | intros [Hne ->] ]);
    try (repeat (apply elem_of_cons in Hin as [Hin | Hin]; [ congruence | ]);
         by apply elem_of_nil in Hin);
    try (split; congruence);
    try (apply elem_of_cons; by left);
    try (exfalso; tauto);
    repeat (apply elem_of_cons in Hin as [Hin | Hin];
            [ first [ by simplify_eq | discriminate ] | ]);
    try by apply elem_of_nil in Hin.
Qed.

Lemma handler_authed_calls (m : Module) (c : Context) :
  CallAuthed ∈ (StreamGETHandler m c).1 ↔ requestToken c = "".
Proof.
  unfold StreamGETHandler.
  generalize (requestStreamType c), (requestToken c). intros k t.
  handler_cases m c; (split; [ intros Hin | intros Heq ]);
    try (apply elem_of_cons; by left);
    try (exfalso; tauto);
    try (destruct (decide (t = "")); [ done | exfalso ]);
    try done;
    repeat (apply elem_of_cons in Hin as [Hin | Hin]; [ discriminate | ]);
    try by apply elem_of_nil in Hin.
Qed.

(** C10. When the access-token query parameter is empty the handler
    takes the token from the HTTP header; the ambient (oauth)
    authorization is attempted exactly when the query parameter and the
    header are both empty; otherwise the first thing the handler does is
    to call the token authorizer with the token, and a request that
    brings a token in the header is handled as the request that brings
    the same token in the query. *)
Theorem token_fallback (m : Module) (c : Context) :
  let q := Query c AccessTokenQueryKey in
  let h := GetHeader c AccessTokenHeader in
  let tr := (StreamGETHandler m c).1 in
  (q = "" → requestToken c = h) ∧
  (CallAuthed ∈ tr ↔ q = "" ∧ h = "") ∧
  (∀ token, CallAuthorize token ∈ tr ↔ token ≠ "" ∧ token = requestToken c) ∧
  (requestToken c ≠ "" → head tr = Some (CallAuthorize (requestToken c))) ∧
  (∀ c' : Context,
     Query c' AccessTokenQueryKey = "" →
     GetHeader c' AccessTokenHeader = q →
     q ≠ "" →
     requestStreamType c' = requestStreamType c →
     wsUpgrade m c' = wsUpgrade m c →
     StreamGETHandler m c' = StreamGETHandler m c).
Proof.
  simpl. split; [ | split; [ | split; [ | split ] ] ].
  - intros Hq. rewrite requestToken_cases, Hq. by case_decide.
  - rewrite handler_authed_calls, requestToken_cases.
    case_decide; split; try tauto; intros Hq; congruence.
  - intros token. apply handler_authorize_calls.
  - unfold StreamGETHandler.
    generalize (requestStreamType c), (requestToken c). intros k t Hne.
    handler_cases m c; done.
  - intros c' Hq' Hh' Hq Hst Hup.
    unfold StreamGETHandler. rewrite Hst, Hup.
    assert (requestToken c' = requestToken c) as ->.
    { rewrite !requestToken_cases, Hq', Hh'. by repeat case_decide. }
    assert (requestToken c ≠ "") as Hne.
    { rewrite requestToken_cases. by case_decide. }
    by destruct (decide (requestToken c ≠ "")).
Qed.

(** C3, as the code has it. The handler makes no check of the [stream]
    parameter.  For every request in which it is absent or empty, the
    handler first authorizes the request, and fails with the
    authorization error when that fails; otherwise it builds the key
    (the empty string, or a colon and the [list] or [tag] value) and
    passes it to the processor's [Open]: when [Open] refuses the key the
    handler hands the error of [Open] to the error handler and returns,
    and when [Open] accepts it the handler reports no error and goes on
    to the upgrade.  So no upgrade is attempted exactly when the
    authorization fails or [Open] refuses the key. *)
Theorem empty_stream_not_checked (m : Module) (c : Context) :
  Query c StreamQueryKey = "" →
  let tr := (StreamGETHandler m c).1 in
  let key := requestStreamType c in
  (key = "" ∨ ∃ qualifier, qualifier ≠ "" ∧ key = ":" +:+ qualifier) ∧
  (match authorization m c with
   | (authCall, inr e) => tr = [authCall; CallErrorHandler e]
   | (authCall, inl account) =>
       match Open m account key with
       | inr e => tr = [authCall; CallOpen account key; CallErrorHandler e]
       | inl stream =>
           (∀ e, CallErrorHandler e ∉ tr) ∧
           ∃ rest, tr = [authCall; CallOpen account key; CallUpgrade] ++ rest
       end
   end) ∧
  ((CallUpgrade ∉ tr) ↔
   (∃ e, (authorization m c).2 = inr e) ∨
   (∃ account e, (authorization m c).2 = inl account ∧
                 Open m account key = inr e)).
Proof.
  intros Hq. cbv zeta. split.
  { rewrite requestStreamType_cases, Hq.
    repeat case_decide; [ right | right | by left ]; by eexists. }
  unfold authorization, StreamGETHandler.
  generalize (requestStreamType c), (requestToken c). intros k t.
  unfold mbind, Proc_bind, mret, Proc_ret, call, emit, Return; simpl.
  destruct (decide (t ≠ "")); simpl.
  - destruct (Authorize m t) as [account | e]; simpl.
    + destruct (Open m account k) as [stream | e] eqn:Hopen; simpl.
      * destruct (wsUpgrade m c) as [wsConn |]; simpl;
          (split; [ split; [ intros e; not_in_trace | by eexists ] | ]);
          (split; [ intros Hnot; exfalso; apply Hnot; do 2 right; by left | ]);
          intros [(e & He) | (a & e & Ha & He)]; simpl in *; congruence.
      * split; [ done | ]. split; [ intros _; right; by eexists _, _ | ].
        intros _. not_in_trace.
    + split; [ done | ]. split; [ intros _; left; by eexists | ].
      intros _. not_in_trace.
  - destruct (oauth_Authed c) as [account | err]; simpl.
    + destruct (Open m account k) as [stream | e] eqn:Hopen; simpl.
      * destruct (wsUpgrade m c) as [wsConn |]; simpl;
          (split; [ split; [ intros e; not_in_trace | by eexists ] | ]);
          (split; [ intros Hnot; exfalso; apply Hnot; do 2 right; by left | ]);
          intros [(e & He) | (a & e & Ha & He)]; simpl in *; congruence.
      * split; [ done | ]. split; [ intros _; right; by eexists _, _ | ].
        intros _. not_in_trace.
    + split; [ done | ]. split; [ intros _; left; by eexists | ].
      intros _. not_in_trace.
Qed.


End Handler.

(** *** The handler on the example requests *)

Example handler_hashtag :
  (@StreamGETHandler exampleEnv exampleModule requestHashtag).1 =
    [CallAuthorize "s3cret";
     CallOpen (mkAccount "alice") "hashtag:foo";
     CallUpgrade;
     Log (mkLog INFO "opened websocket connection");
     GoHandleWSConn "alice" 0%nat
       (mkStream "01STREAM" {[ "hashtag:foo" := true ]} ChanOpen)].
Proof. reflexivity. Qed.

Lemma initial_topic_key_witness :
  @requestStreamType exampleEnv requestHashtag = "hashtag:foo" ∧
  @requestStreamType exampleEnv requestList = "list:01H3" ∧
  @requestStreamType exampleEnv requestQueryToken = "user".
Proof.
  destruct (@initial_topic_key exampleEnv exampleModule requestHashtag)
    as (_ & _ & Htag & _).
  destruct (@initial_topic_key exampleEnv exampleModule requestList)
    as (_ & Hlist & _ & _).
  destruct (@initial_topic_key exampleEnv exampleModule requestQueryToken)
    as (Hnone & _ & _ & _).
  split; [ | split ].
  - apply Htag; [ reflexivity | discriminate ].
  - apply Hlist. discriminate.
  - apply Hnone; reflexivity.
Defined.

Lemma token_fallback_witness :
  @requestToken exampleEnv requestHeaderToken = "s3cret" ∧
  @StreamGETHandler exampleEnv exampleModule requestHeaderToken =
  @StreamGETHandler exampleEnv exampleModule requestQueryToken.
Proof.
  split.
  - destruct (@token_fallback exampleEnv exampleModule requestHeaderToken)
      as (Hheader & _).
    apply Hheader. reflexivity.
  - destruct (@token_fallback exampleEnv exampleModule requestQueryToken)
      as (_ & _ & _ & _ & Hsame).
    apply Hsame; [ reflexivity | reflexivity | discriminate
                 | reflexivity | reflexivity ].
Defined.

Lemma empty_stream_not_checked_witness :
  (CallUpgrade ∉ (@StreamGETHandler exampleEnv exampleModule requestNoStream).1) ∧
  (@StreamGETHandler exampleEnv exampleModule requestNoStream).1 =
    [CallAuthorize "s3cret"; CallOpen (mkAccount "alice") "";
     CallErrorHandler (NewErrorBadRequest "invalid stream type")].
Proof.
  destruct (@empty_stream_not_checked exampleEnv exampleModule requestNoStream)
    as (_ & Hpath & Hiff); [ reflexivity | ].
  split; [ | exact Hpath ].
  apply Hiff. right.
  exists (mkAccount "alice"), (NewErrorBadRequest "invalid stream type").
  split; reflexivity.
Defined.

(** C3, as the specification states it, fails.  A request with an empty
    [stream] parameter and a good token is upgraded when the processor
    opens a session for the empty stream type: the handler reports no
    error.  And a request without [stream] parameter whose token is
    refused is answered with the error of the authorizer (401), whatever
    the processor: no bad-request error is raised. *)
Lemma empty_stream_unchecked_by_handler :
  let upgraded := (@StreamGETHandler exampleEnv permissiveModule requestNoStream).1 in
  let refused := (@StreamGETHandler exampleEnv exampleModule requestBadToken).1 in
  @Query requestNoStream (@StreamQueryKey exampleEnv) = "" ∧
  upgraded =
    [CallAuthorize "s3cret"; CallOpen (mkAccount "alice") ""; CallUpgrade;
     Log (mkLog INFO "opened websocket connection");
     GoHandleWSConn "alice" 0%nat
       (mkStream "01STREAM" {[ "" := true ]} ChanOpen)] ∧
  CallUpgrade ∈ upgraded ∧
  ¬ (∃ e, CallErrorHandler e ∈ upgraded) ∧
  @Query requestBadToken (@StreamQueryKey exampleEnv) = "" ∧
  refused = [CallAuthorize "wr0ng";
             CallErrorHandler (NewErrorUnauthorized "invalid token")] ∧
  ¬ (∃ e, CallErrorHandler e ∈ refused ∧ Code e = StatusBadRequest).
Proof.
  cbv zeta.
  split; [ reflexivity | split; [ reflexivity | split; [ | split; [ | split; [ reflexivity | split; [ reflexivity | ] ] ] ] ] ].
  - change (CallUpgrade ∈
              [CallAuthorize "s3cret"; CallOpen (mkAccount "alice") ""; CallUpgrade;
               Log (mkLog INFO "opened websocket connection");
               GoHandleWSConn "alice" 0%nat
                 (mkStream "01STREAM" {[ "" := true ]} ChanOpen)]).
    do 2 right. by left.
  - intros (e & Hin).
    change (CallErrorHandler e ∈
              [CallAuthorize "s3cret"; CallOpen (mkAccount "alice") ""; CallUpgrade;
               Log (mkLog INFO "opened websocket connection");
               GoHandleWSConn "alice" 0%nat
                 (mkStream "01STREAM" {[ "" := true ]} ChanOpen)]) in Hin.
    repeat (apply elem_of_cons in Hin as [Hin | Hin]; [ discriminate | ]).
    by apply elem_of_nil in Hin.
  - intros (e & Hin & Hcode).
    change (CallErrorHandler e ∈
              [CallAuthorize "wr0ng";
               CallErrorHandler (NewErrorUnauthorized "invalid token")]) in Hin.
    apply elem_of_cons in Hin as [Hin | Hin]; [ discriminate | ].
    apply elem_of_cons in Hin as [Hin | Hin]; [ | by apply elem_of_nil in Hin ].
    injection Hin as ->. discriminate.
Qed.

(** ** Properties of the inbound pump *)

Section Inbound.
Context `{Env}.

Lemma slices_Contains_elem_of (s : list string) (v : string) :
  slices_Contains s v = true ↔ v ∈ s.
Proof.
  induction s as [| x s IH]; simpl.
  - split; [ done | by intros ?%elem_of_nil ].
  - case_decide as Hx.
    + subst. split; [ intros _; by left | done ].
    + rewrite IH. split; [ by right | ].
      intros [? | ?]%elem_of_cons; [ congruence | done ].
Qed.

Lemma IsUnexpectedCloseError_spec (err : ReadError) (expected : list Z) :
  IsUnexpectedCloseError err expected = true ↔
  ∃ code, err = CloseError code ∧ code ∉ expected.
Proof.
  destruct err as [code |]; simpl.
  - induction expected as [| c expected IH].
    + split; [ intros _; exists code; split; [ done | by intros ?%elem_of_nil ] | done ].
    + case_decide as Hc.
      * subst. split; [ done | ].
        intros (code & [= <-] & Hnot). exfalso. apply Hnot. by left.
      * rewrite IH. split.
        -- intros (code' & [= <-] & Hnot). exists code. split; [ done | ].
           intros [? | ?]%elem_of_cons; [ congruence | done ].
        -- intros (code' & [= <-] & Hnot). exists code. split; [ done | ].
           intros Hin. apply Hnot. by right.
  - split; [ done | by intros (? & ? & ?) ].
Qed.

(** Every iteration that read a frame goes on with the next one; only
    a failed read leaves the loop. *)
Lemma readLoopBody_ctl (r : ReadResult) (stream : Stream) :
  (readLoopBody r stream).1.2 = match r with inl _ => Break | inr _ => Continue end.
Proof.
  destruct r as [err | msg]; simpl; [ done | ].
  repeat (case_match; simpl; try done).
Qed.

Lemma readFromWSConn_continue (r : ReadResult) (rest : list ReadInput)
    (stream stream' : Stream) (logs : list LogEntry) :
  readLoopBody r stream = (logs, Continue, stream') →
  readFromWSConn (Read r :: rest) stream =
    (logs ++ (readFromWSConn rest stream').1.1,
     (readFromWSConn rest stream').1.2,
     (readFromWSConn rest stream').2).
Proof.
  intros Hbody. simpl. rewrite Hbody.
  by destruct (readFromWSConn rest stream') as [[logs' status] stream''].
Qed.

Lemma readFromWSConn_break (r : ReadResult) (rest : list ReadInput)
    (stream stream' : Stream) (logs : list LogEntry) :
  readLoopBody r stream = (logs, Break, stream') →
  readFromWSConn (Read r :: rest) stream =
    (logs ++ [mkLog DEBUG "finished reading from websocket connection"],
     Returned, stream').
Proof. intros Hbody. simpl. by rewrite Hbody. Qed.

Lemma readerGoroutine_eq (inputs : list ReadInput) (stream : Stream) :
  readerGoroutine inputs stream =
    ((readFromWSConn inputs stream).1.1,
     hasReturned (readFromWSConn inputs stream).1.2,
     (readFromWSConn inputs stream).2).
Proof.
  unfold readerGoroutine.
  by destruct (readFromWSConn inputs stream) as [[logs [|]] stream'].
Qed.

(** The goroutine of the inbound pump calls [cancel] exactly when the
    pump met a cancelled context or a failed read. *)
Lemma readerGoroutine_cancels (inputs : list ReadInput) (stream : Stream) :
  (readerGoroutine inputs stream).1.2 = true ↔
  ∃ i, i ∈ inputs ∧ (i = CtxDone ∨ ∃ err, i = Read (inl err)).
Proof.
  rewrite readerGoroutine_eq. simpl.
  revert stream. induction inputs as [| i inputs IH]; intros stream.
  - simpl. split; [ done | by intros (i & ?%elem_of_nil & _) ].
  - destruct i as [| r].
    + simpl. split; [ intros _ | done ].
      exists CtxDone. split; [ by left | by left ].
    + pose proof (readLoopBody_ctl r stream) as Hctl.
      destruct (readLoopBody r stream) as [[logs ctl] stream'] eqn:Hbody.
      simpl in Hctl. destruct r as [err | msg]; subst ctl.
      * rewrite (readFromWSConn_break _ _ _ _ _ Hbody). simpl.
        split; [ intros _ | done ].
        exists (Read (inl err)). split; [ by left | right; by exists err ].
      * rewrite (readFromWSConn_continue _ _ _ _ _ Hbody). simpl.
        rewrite IH. split.
        -- intros (i & Hin & Hi). exists i. split; [ by right | done ].
        -- intros (i & Hin & Hi).
           apply elem_of_cons in Hin as [-> | Hin].
           ++ destruct Hi as [? | (err & ?)]; discriminate.
           ++ by exists i.
Qed.

Lemma malformed_body (msg : gmap string string) (stream : Stream) :
  malformed msg →
  ∃ w, lvl w = WARN ∧
       readLoopBody (inr msg) stream =
         ([mkLog INFO "received message from websocket: %v"; w],
          Continue, stream).
Proof.
  assert (∀ text,
    ∃ w, lvl w = WARN ∧
         ([mkLog INFO "received message from websocket: %v"; mkLog WARN text],
          Continue, stream) =
         ([mkLog INFO "received message from websocket: %v"; w],
          Continue, stream)) as Hwarned.
  { intros text. by exists (mkLog WARN text). }
  intros Hbad. unfold readLoopBody.
  destruct (msg !! "type") as [updateType |] eqn:Htype; [ | apply Hwarned ].
  destruct (msg !! "stream") as [updateStream |] eqn:Hstream; [ | apply Hwarned ].
  destruct (slices_Contains AllStatusTimelines updateStream) eqn:Hknown;
    simpl; [ | apply Hwarned ].
  apply slices_Contains_elem_of in Hknown.
  destruct Hbad as [? | [? | [(s & Hs & Hnot) | (t & Ht & Hs & Hu)]]];
    [ congruence | congruence | | ].
  - rewrite Hstream in Hs. by injection Hs as <-.
  - rewrite Htype in Ht. injection Ht as <-.
    destruct (decide (updateType = "subscribe")); [ done | ].
    destruct (decide (updateType = "unsubscribe")); [ done | ].
    apply Hwarned.
Qed.

(** C6, as the code has it. A control frame that decodes as a JSON
    object of strings and is malformed (no [type] field, no [stream]
    field, a [stream] outside the vocabulary, an unknown [type]) is
    logged with a warning and leaves the session as it is; the pump goes
    on with the next iteration, so what its goroutine does after the
    frame (return and cancel the scope, or not) is what it does on the
    inputs that follow.  No frame that was read leaves the loop, only a
    failed read does, and the goroutine cancels the scope only when the
    pump met a failed read or a context that was cancelled already.  A
    read fails when the peer closed, when the transport failed, and also
    when a frame does not decode as a JSON object of strings: such a
    frame is not logged with a warning, it ends the loop and the scope
    is cancelled. *)
Theorem malformed_frame_continues (msg : gmap string string)
    (rest : list ReadInput) (stream : Stream) :
  malformed msg →
  (∃ w, lvl w = WARN ∧
        readLoopBody (inr msg) stream =
          ([mkLog INFO "received message from websocket: %v"; w],
           Continue, stream) ∧
        readerGoroutine (Read (inr msg) :: rest) stream =
          ([mkLog INFO "received message from websocket: %v"; w]
             ++ (readerGoroutine rest stream).1.1,
           (readerGoroutine rest stream).1.2,
           (readerGoroutine rest stream).2)) ∧
  readerGoroutine [Read (inr msg)] stream =
    ((readerGoroutine [Read (inr msg)] stream).1.1, false, stream) ∧
  (∀ (r : ReadResult) (stream0 : Stream),
     (readLoopBody r stream0).1.2 = Break ↔ ∃ err, r = inl err) ∧
  (∀ (inputs : list ReadInput) (stream0 : Stream),
     (readerGoroutine inputs stream0).1.2 = true ↔
     ∃ i, i ∈ inputs ∧ (i = CtxDone ∨ ∃ err, i = Read (inl err))) ∧
  (∀ (a : Arrival) (inputs : list ReadInput) (stream0 : Stream),
     ((readLoopBody (ReadJSON a) stream0).1.2 = Break ↔
      (∃ code, a = PeerClosed code) ∨ a = TransportFailed ∨
      a = FrameArrived None) ∧
     (a = FrameArrived None →
      readerGoroutine (Read (ReadJSON a) :: inputs) stream0 =
        ([mkLog DEBUG "finished reading from websocket connection"],
         true, stream0))).
Proof.
  intros Hbad.
  destruct (malformed_body msg stream Hbad) as (w & Hw & Hbody).
  split; [ | split; [ | split; [ | split ] ] ].
  - exists w. split; [ done | split; [ done | ] ].
    rewrite !readerGoroutine_eq.
    by rewrite (readFromWSConn_continue _ _ _ _ _ Hbody).
  - rewrite !readerGoroutine_eq.
    by rewrite (readFromWSConn_continue _ _ _ _ _ Hbody).
  - intros r stream0. rewrite readLoopBody_ctl.
    destruct r as [err | msg0]; split; try done.
    + intros _. by exists err.
    + by intros (err & ?).
  - apply readerGoroutine_cancels.
  - intros a inputs stream0. split.
    + rewrite readLoopBody_ctl.
      destruct a as [code | | [msg0 |]]; simpl; split; try done.
      * intros _. left. by exists code.
      * intros _. right. by left.
      * intros [(code & ?) | [? | ?]]; discriminate.
      * intros _. right. by right.
    + by intros ->.
Qed.

(** C4, as the code has it. A failed read leaves the loop with the
    session untouched, and the goroutine of the pump then cancels the
    shared scope, whatever the failure.  An error-level line is logged
    exactly when the failure is a close error whose code is none of
    normal closure, going away and no status: an expected close logs
    none, and neither does a failure that is no close error at all. *)
Theorem read_failure_ends_loop (err : ReadError) (rest : list ReadInput)
    (stream : Stream) :
  let logs := (readLoopBody (inl err) stream).1.1 in
  (readLoopBody (inl err) stream).1.2 = Break ∧
  (readLoopBody (inl err) stream).2 = stream ∧
  (errorLogged logs ↔
     ∃ code, err = CloseError code ∧
             code ∉ [CloseNormalClosure; CloseGoingAway; CloseNoStatusReceived]) ∧
  (expectedClose err → ¬ errorLogged logs) ∧
  readerGoroutine (Read (inl err) :: rest) stream =
    (logs ++ [mkLog DEBUG "finished reading from websocket connection"],
     true, stream).
Proof.
  simpl.
  assert (errorLogged
            (if IsUnexpectedCloseError err
                  [CloseNormalClosure; CloseGoingAway; CloseNoStatusReceived]
             then [mkLog ERROR "error reading from websocket: %v"] else []) ↔
          ∃ code, err = CloseError code ∧
             code ∉ [CloseNormalClosure; CloseGoingAway; CloseNoStatusReceived])
    as Hlogged.
  { rewrite <- IsUnexpectedCloseError_spec.
    destruct (IsUnexpectedCloseError err _); split; try done.
    - intros _. eexists. split; [ by left | done ].
    - by intros (e & ?%elem_of_nil & _). }
  split; [ done | split; [ done | split; [ done | split ] ] ].
  - intros (code & -> & Hin). rewrite Hlogged.
    intros (code' & [= <-] & Hnot). by apply Hnot.
  - done.
Qed.


(** What a well-formed frame does to the topic set. *)
Lemma readLoopBody_wellformed (msg : gmap string string) (stream : Stream)
    (updateType updateStream : string) :
  msg !! "type" = Some updateType →
  msg !! "stream" = Some updateStream →
  updateStream ∈ AllStatusTimelines →
  let key := match msg !! "list" with
             | Some updateList => updateStream +:+ ":" +:+ updateList
             | None => updateStream
             end in
  StreamTypes (readLoopBody (inr msg) stream).2 =
    if decide (updateType = "subscribe") then <[key := true]> (StreamTypes stream)
    else if decide (updateType = "unsubscribe") then delete key (StreamTypes stream)
    else StreamTypes stream.
Proof.
  intros Htype Hstream Hknown. simpl. rewrite Htype, Hstream.
  apply slices_Contains_elem_of in Hknown. rewrite Hknown. simpl.
  by repeat case_decide.
Qed.

(** C8. For every well-formed control frame that has a [list] field,
    the key that the pump inserts into the topic set (subscribe) or
    removes from it (unsubscribe) is the [stream] value followed by a
    colon and the [list] value, whatever that value is, the empty string
    included. *)
Theorem list_qualifier_appended (msg : gmap string string) (stream : Stream)
    (updateType updateStream updateList : string) :
  msg !! "type" = Some updateType →
  msg !! "stream" = Some updateStream →
  updateStream ∈ AllStatusTimelines →
  msg !! "list" = Some updateList →
  let key := updateStream +:+ ":" +:+ updateList in
  let topics := StreamTypes (readLoopBody (inr msg) stream).2 in
  (updateType = "subscribe" → topics = <[key := true]> (StreamTypes stream)) ∧
  (updateType = "unsubscribe" → topics = delete key (StreamTypes stream)).
Proof.
  intros Htype Hstream Hknown Hlist key topics. subst topics.
  rewrite (readLoopBody_wellformed _ _ _ _ Htype Hstream Hknown).
  rewrite Hlist. fold key.
  split; intros ->; by repeat case_decide.
Qed.

Lemma entriesOf_lookup (key : string) (topics : gmap string bool) (b : bool) :
  topics !! key = Some b → entriesOf key topics = [(key, b)].
Proof.
  intros Hlookup. unfold entriesOf.
  set (l := filter (λ kv : string * bool, kv.1 = key) (map_to_list topics)).
  assert (NoDup l) as Hnodup.
  { apply NoDup_filter, NoDup_map_to_list. }
  assert (∀ x, x ∈ l → x = (key, b)) as Hall.
  { intros [k v] [Hk Hin]%list_elem_of_filter. simpl in Hk. subst k.
    apply elem_of_map_to_list in Hin. congruence. }
  assert ((key, b) ∈ l) as Hin.
  { apply list_elem_of_filter. split; [ done | by apply elem_of_map_to_list ]. }
  destruct l as [| x [| y l]].
  - by apply elem_of_nil in Hin.
  - f_equal. apply Hall. by left.
  - exfalso. apply NoDup_cons in Hnodup as [Hx _]. apply Hx.
    rewrite (Hall x) by (by left).
    rewrite <- (Hall y) by (right; by left). by left.
Qed.

Lemma subscribesTo_body (msg : gmap string string) (key : string) (stream : Stream) :
  subscribesTo msg key →
  readLoopBody (inr msg) stream =
    ([mkLog INFO "received message from websocket: %v"], Continue,
     mkStream (ID stream) (<[key := true]> (StreamTypes stream)) (Hangup stream)).
Proof.
  intros (Htype & updateStream & Hstream & Hknown & ->).
  simpl. rewrite Htype, Hstream.
  apply slices_Contains_elem_of in Hknown. rewrite Hknown. simpl.
  by destruct (msg !! "list").
Qed.

(** C9. Two consecutive subscribe frames for one topic key leave the
    topic set as the first of them left it: the key is a member, with
    exactly one membership entry. *)
Theorem subscribe_twice (msg1 msg2 : gmap string string) (key : string)
    (stream : Stream) :
  subscribesTo msg1 key →
  subscribesTo msg2 key →
  let once := StreamTypes (streamAfter [Read (inr msg1)] stream) in
  let twice := StreamTypes (streamAfter [Read (inr msg1); Read (inr msg2)] stream) in
  twice = once ∧
  twice = <[key := true]> (StreamTypes stream) ∧
  entriesOf key twice = [(key, true)].
Proof.
  intros Hmsg1 Hmsg2. unfold streamAfter.
  rewrite !(readFromWSConn_continue _ _ _ _ _ (subscribesTo_body _ _ _ Hmsg1)).
  rewrite !(readFromWSConn_continue _ _ _ _ _ (subscribesTo_body _ _ _ Hmsg2)).
  simpl. rewrite insert_insert_eq.
  split; [ done | split; [ done | ] ].
  apply entriesOf_lookup, lookup_insert_eq.
Qed.




Lemma string_length_app (a b : string) :
  String.length (a +:+ b) = (String.length a + String.length b)%nat.
Proof. induction a as [| ch a IH]; simpl; [ done | by rewrite IH ]. Qed.

Lemma padding_length (n : nat) : String.length (padding n) = n.
Proof. induction n as [| n IH]; simpl; [ done | by rewrite IH ]. Qed.

Lemma elem_of_length_le_sum (v : string) (l : list string) :
  v ∈ l → (String.length v ≤ sum_list (String.length <$> l))%nat.
Proof.
  induction l as [| x l IH]; [ by intros ?%elem_of_nil | ].
  intros [-> | Hin]%elem_of_cons; csimpl; [ lia | ].
  specialize (IH Hin). lia.
Qed.

(** Whatever the vocabulary, as soon as it has one topic the pump can
    be made to insert a key that is not in it. *)
Lemma vocabulary_is_not_closed (topic : string) (stream : Stream) :
  topic ∈ AllStatusTimelines →
  ∃ qualifier,
    let key := topic +:+ ":" +:+ qualifier in
    (key ∉ AllStatusTimelines) ∧
    StreamTypes (readLoopBody (inr (subscribeFrame topic qualifier)) stream).2
      !! key = Some true.
Proof.
  intros Hknown.
  set (q := padding (sum_list (String.length <$> AllStatusTimelines))).
  exists q. cbv zeta. split.
  - intros Hin%elem_of_length_le_sum.
    subst q. rewrite !string_length_app, padding_length in Hin.
    simpl in Hin. lia.
  - rewrite (subscribesTo_body (subscribeFrame topic q) (topic +:+ ":" +:+ q)).
    + simpl. apply lookup_insert_eq.
    + split; [ done | ]. exists topic. by repeat split.
Qed.

End Inbound.

(** *** The inbound pump on the example frames *)

Example pump_subscribe_public :
  StreamTypes (@streamAfter exampleEnv [Read (inr frameSubscribePublic)] exampleStream)
  = {[ "public" := true; "user" := true ]}.
Proof. apply map_eq. intros k. vm_compute. reflexivity. Qed.

Ltac not_in_list :=
  let Hin := fresh "Hin" in
  intros Hin;
  repeat (apply elem_of_cons in Hin as [Hin | Hin]; [ discriminate | ]);
  by apply elem_of_nil in Hin.



(** C4, as the specification states it, fails: a read failure that is
    no close error (the frame is no JSON object of strings, the network
    failed) is no expected close, and yet logs no error-level line;
    the pump returns and its goroutine cancels the scope all the same. *)
Lemma read_failure_without_close_not_logged :
  ¬ expectedClose OtherError ∧
  @logsOf exampleEnv [Read (inl OtherError)] exampleStream =
    [mkLog DEBUG "finished reading from websocket connection"] ∧
  ¬ errorLogged (@logsOf exampleEnv [Read (inl OtherError)] exampleStream) ∧
  (@readerGoroutine exampleEnv [Read (inl OtherError)] exampleStream).1.2 = true.
Proof.
  split; [ by intros (code & ? & _) | split; [ reflexivity | split; [ | reflexivity ] ] ].
  intros (e & Hin & Hlvl).
  change (e ∈ [mkLog DEBUG "finished reading from websocket connection"]) in Hin.
  apply elem_of_cons in Hin as [-> | Hin]; [ discriminate | ].
  by apply elem_of_nil in Hin.
Qed.

Lemma read_failure_ends_loop_witness :
  ¬ errorLogged
      (@readLoopBody exampleEnv (inl (CloseError CloseGoingAway)) exampleStream).1.1 ∧
  errorLogged (@readLoopBody exampleEnv (inl (CloseError 1006)) exampleStream).1.1.
Proof.
  destruct (@read_failure_ends_loop exampleEnv (CloseError CloseGoingAway) []
              exampleStream) as (_ & _ & _ & Hexpected & _).
  destruct (@read_failure_ends_loop exampleEnv (CloseError 1006) []
              exampleStream) as (_ & _ & Hlogged & _).
  split.
  - apply Hexpected. exists CloseGoingAway.
    split; [ reflexivity | right; left ].
  - apply Hlogged. exists 1006%Z. split; [ reflexivity | not_in_list ].
Defined.

(** C6, as the specification states it, fails: a frame that does not
    decode as a JSON object of strings (its [type] is a number, say) is
    no failure of the transport, and yet it is not logged and passed
    over: the read fails, the pump leaves its loop without a warning
    and its goroutine cancels the scope. *)
Lemma undecodable_frame_ends_loop :
  let arrival := FrameArrived None in
  arrival ≠ TransportFailed ∧
  (∀ code, arrival ≠ PeerClosed code) ∧
  (@readLoopBody exampleEnv (ReadJSON arrival) exampleStream).1.2 = Break ∧
  @readerGoroutine exampleEnv [Read (ReadJSON arrival)] exampleStream =
    ([mkLog DEBUG "finished reading from websocket connection"],
     true, exampleStream) ∧
  ¬ (∃ e, e ∈ @logsOf exampleEnv [Read (ReadJSON arrival)] exampleStream ∧
          lvl e = WARN).
Proof.
  cbv zeta.
  split; [ done | split; [ done | split; [ reflexivity | split; [ reflexivity | ] ] ] ].
  intros (e & Hin & Hlvl).
  change (e ∈ [mkLog DEBUG "finished reading from websocket connection"]) in Hin.
  apply elem_of_cons in Hin as [-> | Hin]; [ discriminate | ].
  by apply elem_of_nil in Hin.
Qed.

Lemma malformed_frame_continues_witness :
  @readerGoroutine exampleEnv [Read (inr frameUnknownStream)] exampleStream =
    ([mkLog INFO "received message from websocket: %v";
      mkLog WARN "unknown 'stream' field: %v"],
     false, exampleStream).
Proof.
  destruct (@malformed_frame_continues exampleEnv frameUnknownStream []
              exampleStream) as (_ & Hgo & _).
  - right; right; left. exists "nonsense".
    split; [ reflexivity | simpl; not_in_list ].
  - rewrite Hgo. reflexivity.
Defined.

Lemma list_qualifier_appended_witness :
  StreamTypes (@readLoopBody exampleEnv (inr frameSubscribeEmptyList) exampleStream).2
  = <["user:" := true]> (StreamTypes exampleStream).
Proof.
  destruct (@list_qualifier_appended exampleEnv frameSubscribeEmptyList
              exampleStream "subscribe" "user" "") as [Hsub _].
  - reflexivity.
  - reflexivity.
  - simpl. right; left.
  - reflexivity.
  - apply Hsub. reflexivity.
Defined.

Lemma subscribe_twice_witness :
  entriesOf "public"
    (StreamTypes (@streamAfter exampleEnv
                    [Read (inr frameSubscribePublic); Read (inr frameSubscribePublic)]
                    exampleStream))
  = [("public", true)].
Proof.
  destruct (@subscribe_twice exampleEnv frameSubscribePublic frameSubscribePublic
              "public" exampleStream) as (_ & _ & Hone).
  - split; [ reflexivity | ]. exists "public".
    split; [ reflexivity | split; [ simpl; left | reflexivity ] ].
  - split; [ reflexivity | ]. exists "public".
    split; [ reflexivity | split; [ simpl; left | reflexivity ] ].
  - exact Hone.
Defined.

(** ** Properties of the outbound pump *)

(** A successful write of an event resets the ticker to the keepalive
    interval of the module and goes on; a successful ping leaves the
    ticker as it is; a failed write leaves the loop. *)
Lemma writeLoopBody_cases (m : Module) (w : WriteInput) (pinger : Ticker) :
  match w with
  | WMessage msg true =>
      (writeLoopBody m w pinger).2 = Ticker_Reset pinger (dTicker m) ∧
      (writeLoopBody m w pinger).1.2 = [EventFrame msg] ∧
      (writeLoopBody m w pinger).1.1.2 = Continue
  | WTick true =>
      (writeLoopBody m w pinger).2 = pinger ∧
      (writeLoopBody m w pinger).1.2 = [PingFrame] ∧
      (writeLoopBody m w pinger).1.1.2 = Continue
  | _ =>
      (writeLoopBody m w pinger).2 = pinger ∧
      (writeLoopBody m w pinger).1.2 = [] ∧
      (writeLoopBody m w pinger).1.1.2 = Break
  end.
Proof. by destruct w as [| msg [|] | [|]]. Qed.

(** ** Properties of the connection *)

Section Connection.
Context `{Env} (m : Module).





End Connection.

(** *** The connection on the example schedules *)

Example run_writer_first :
  ∃ s, @run exampleEnv exampleModule scheduleWriterFirst
         (handleWSConn_init exampleModule exampleStream) = Next s ∧
       coordinator s = CReturned ∧ reader s = RExited ∧ writer s = WExited ∧
       Hangup (stream s) = ChanClosed ∧
       logs s =
         [mkLog TRACE "writing message to websocket: %+v";
          mkLog DEBUG "error writing json to websocket: %v";
          mkLog DEBUG "finished writing to websocket connection";
          mkLog DEBUG "finished reading from websocket connection";
          mkLog INFO "closed websocket connection"].
Proof. eexists. repeat split. Qed.



(** ** Further properties of the request handler *)

Section HandlerPaths.
Context `{Env}.

(** The handler leaves one of four traces. *)
Lemma handler_paths (m : Module) (c : Context) :
  (StreamGETHandler m c).1 = handlerPaths m c.
Proof.
  unfold StreamGETHandler, handlerPaths, authorization.
  generalize (requestStreamType c), (requestToken c). intros k t.
  unfold mbind, Proc_bind, mret, Proc_ret, call, emit, Return; simpl.
  destruct (decide (t ≠ "")); simpl.
  - destruct (Authorize m t) as [account | e]; simpl; [ | done ].
    destruct (Open m account k) as [st | e]; simpl; [ | done ].
    by destruct (wsUpgrade m c).
  - destruct (oauth_Authed c) as [account | err]; simpl; [ | done ].
    destruct (Open m account k) as [st | e]; simpl; [ | done ].
    by destruct (wsUpgrade m c).
Qed.

Ltac paths m c :=
  rewrite ?handler_paths; unfold handlerPaths;
  destruct (authorization m c) as [authCall [acct | err]] eqn:Hauth;
    [ destruct (Open m acct (requestStreamType c)) as [sess | err] eqn:Hopen;
      [ destruct (wsUpgrade m c) as [conn |] eqn:Hup | ] | ].

Ltac trace_in H :=
  repeat (apply elem_of_cons in H as [H | H]; [ try discriminate | ]);
  try by apply elem_of_nil in H.

(** The first event of every trace is the call of an authorizer. *)
Lemma authorization_call (m : Module) (c : Context) :
  let authCall := (authorization m c).1 in
  isAuthCall authCall = true ∧
  isCloseHangup authCall = false ∧
  isGoHandleWSConn authCall = false ∧
  isErrorHandler authCall = false ∧
  authCall ≠ CallUpgrade ∧
  (∀ account key, authCall ≠ CallOpen account key) ∧
  (∀ sid, authCall ≠ CloseHangup sid) ∧
  (∀ e, authCall ≠ CallErrorHandler e) ∧
  (∀ username wsConn stream, authCall ≠ GoHandleWSConn username wsConn stream).
Proof. unfold authorization. case_decide; by repeat split. Qed.

(** X1. When the authorization of a request fails, the handler hands
    the error to the error handler and returns: it opens no session,
    attempts no upgrade and closes nothing. *)
Theorem unauthorized_request_stops (m : Module) (c : Context) (e : WithCode) :
  (authorization m c).2 = inr e →
  let tr := (StreamGETHandler m c).1 in
  tr = [(authorization m c).1; CallErrorHandler e] ∧
  (∀ account key, CallOpen account key ∉ tr) ∧
  (CallUpgrade ∉ tr) ∧
  handlerCloses tr = 0%nat ∧ handlerStarts tr = 0%nat.
Proof.
  intros Hfail. cbv zeta. rewrite handler_paths. unfold handlerPaths.
  destruct (authorization m c) as [authCall [account | e']] eqn:Hauth;
    simpl in Hfail; [ discriminate | ]. injection Hfail as ->.
  destruct (authorization_call m c) as (_ & Hc & Hg & _ & Hu & Ho & _).
  rewrite Hauth in Hc, Hg, Hu, Ho. simpl in Hc, Hg, Hu, Ho.
  split; [ done | ].
  split; [ intros a k Hin; trace_in Hin; by eapply Ho | ].
  split; [ intros Hin; trace_in Hin; done | ].
  unfold handlerCloses, handlerStarts. simpl. by rewrite Hc, Hg.
Qed.


(** X2. When the request is authorized and the processor refuses to
    open the session, the handler hands that error to the error handler
    and returns: it attempts no upgrade, closes nothing and starts no
    connection. *)
Theorem open_failure_stops (m : Module) (c : Context) (account : Account)
    (e : WithCode) :
  (authorization m c).2 = inl account →
  Open m account (requestStreamType c) = inr e →
  let tr := (StreamGETHandler m c).1 in
  tr = [(authorization m c).1; CallOpen account (requestStreamType c);
        CallErrorHandler e] ∧
  (CallUpgrade ∉ tr) ∧
  handlerCloses tr = 0%nat ∧ handlerStarts tr = 0%nat.
Proof.
  intros Hok Hopen. cbv zeta. rewrite handler_paths. unfold handlerPaths.
  destruct (authorization_call m c) as (_ & Hc & Hg & _ & Hu & _).
  destruct (authorization m c) as [authCall [account' | e']] eqn:Hauth;
    simpl in *; [ | discriminate ]. injection Hok as ->.
  rewrite Hopen.
  split; [ done | ].
  split; [ intros Hin; trace_in Hin; done | ].
  unfold handlerCloses, handlerStarts. simpl. by rewrite Hc, Hg.
Qed.

(** X3. The handler starts a connection exactly when the request is
    authorized, the processor opened a session for the requested stream
    type and the upgrade succeeded; the connection gets the name of the
    authorized account, the upgraded connection and that session. *)
Theorem connection_started_iff (m : Module) (c : Context) (username : string)
    (wsConn : Conn) (stream : Stream) :
  GoHandleWSConn username wsConn stream ∈ (StreamGETHandler m c).1 ↔
  ∃ account,
    (authorization m c).2 = inl account ∧
    Open m account (requestStreamType c) = inl stream ∧
    wsUpgrade m c = Some wsConn ∧
    username = Username account.
Proof.
  destruct (authorization_call m c) as (_ & _ & _ & _ & _ & _ & _ & _ & Hgo).
  paths m c; simpl in Hgo; split;
    try (intros (a & Ha & Ho & Hu & ->); simpl in Ha; try discriminate;
         injection Ha as <-; try (rewrite Hopen in Ho); try discriminate;
         injection Ho as <-; injection Hu as <-; do 4 right; by left);
    intros Hin; trace_in Hin; try (by edestruct Hgo).
  injection Hin as -> -> ->. by exists acct.
Qed.

(** X4. The handler closes a hangup signal exactly when the request is
    authorized, the processor opened a session and the upgrade failed;
    the signal it closes is that of the session just opened. *)
Theorem handler_closes_hangup_iff (m : Module) (c : Context) (streamID : string) :
  CloseHangup streamID ∈ (StreamGETHandler m c).1 ↔
  ∃ account stream,
    (authorization m c).2 = inl account ∧
    Open m account (requestStreamType c) = inl stream ∧
    wsUpgrade m c = None ∧
    streamID = ID stream.
Proof.
  destruct (authorization_call m c) as (_ & _ & _ & _ & _ & _ & Hcl & _).
  paths m c; simpl in Hcl; split;
    try (intros (a & s & Ha & Ho & Hu & ->); simpl in Ha; try discriminate;
         injection Ha as <-; try (rewrite Hopen in Ho); try discriminate;
         injection Ho as <-; do 4 right; by left);
    intros Hin; trace_in Hin; try (by edestruct Hcl).
  injection Hin as ->. by exists acct, sess.
Qed.

(** X5. The handler reports to the error handler at most once, and it
    does so exactly when it attempts no upgrade: a request is either
    refused before the upgrade or upgraded, never both. *)
Theorem error_or_upgrade (m : Module) (c : Context) :
  let tr := (StreamGETHandler m c).1 in
  (length (List.filter isErrorHandler tr) ≤ 1)%nat ∧
  ((∃ e, CallErrorHandler e ∈ tr) ↔ CallUpgrade ∉ tr).
Proof.
  cbv zeta.
  destruct (authorization_call m c) as (_ & _ & _ & Heh & Hnu & _ & _ & Hne & _).
  paths m c; simpl in Heh, Hnu, Hne; simpl; rewrite Heh; simpl;
    (split; [ lia | split ]).
  - intros (e & Hin). trace_in Hin. by edestruct Hne.
  - intros Hnot. exfalso. apply Hnot. do 2 right. by left.
  - intros (e & Hin). trace_in Hin. by edestruct Hne.
  - intros Hnot. exfalso. apply Hnot. do 2 right. by left.
  - intros _ Hin. trace_in Hin. done.
  - intros _. exists err. do 2 right. by left.
  - intros _ Hin. trace_in Hin. done.
  - intros _. exists err. right. by left.
Qed.

(** X6. A token in the query takes precedence: when the query brings a
    token, the headers of the request do not matter to the handler
    (as long as the upgrader answers the same). *)
Theorem query_token_precedence (m : Module) (c c' : Context) :
  Query c AccessTokenQueryKey ≠ "" →
  query c' = query c →
  wsUpgrade m c' = wsUpgrade m c →
  StreamGETHandler m c' = StreamGETHandler m c.
Proof.
  intros Htoken Hquery Hup.
  assert (∀ key, Query c' key = Query c key) as Hq.
  { intros key. unfold Query. by rewrite Hquery. }
  assert (requestToken c' = requestToken c) as Htok.
  { rewrite !requestToken_cases, !Hq. by case_decide. }
  assert (requestToken c ≠ "") as Hne.
  { rewrite requestToken_cases. by case_decide. }
  unfold StreamGETHandler. rewrite Htok, Hup.
  assert (requestStreamType c' = requestStreamType c) as ->.
  { by rewrite !requestStreamType_cases, !Hq. }
  by destruct (decide (requestToken c ≠ "")).
Qed.

(** X7. Every request is authorized exactly once, and before anything
    else: the first event of the trace is the one call of an
    authorizer, and no session is opened for an account other than the
    one it returned. *)
Theorem authorized_once_and_first (m : Module) (c : Context) :
  let tr := (StreamGETHandler m c).1 in
  head tr = Some (authorization m c).1 ∧
  length (List.filter isAuthCall tr) = 1%nat ∧
  (∀ account key,
     CallOpen account key ∈ tr → (authorization m c).2 = inl account).
Proof.
  cbv zeta.
  destruct (authorization_call m c) as (Hauthcall & _ & _ & _ & _ & Hop & _).
  paths m c; simpl in Hauthcall, Hop; simpl; rewrite Hauthcall; simpl;
    (split; [ done | split; [ done | ] ]);
    intros a k Hin; trace_in Hin; try (by edestruct Hop);
    by injection Hin as -> _.
Qed.

End HandlerPaths.

(** *** The four paths on the example requests *)

Lemma unauthorized_request_stops_witness :
  (@StreamGETHandler exampleEnv exampleModule requestBadToken).1 =
    [CallAuthorize "wr0ng";
     CallErrorHandler (NewErrorUnauthorized "invalid token")].
Proof.
  destruct (@unauthorized_request_stops exampleEnv exampleModule requestBadToken
              (NewErrorUnauthorized "invalid token")) as (Htrace & _).
  - reflexivity.
  - exact Htrace.
Defined.

Lemma open_failure_stops_witness :
  (CallUpgrade ∉ (@StreamGETHandler exampleEnv exampleModule requestNoStream).1) ∧
  handlerCloses (@StreamGETHandler exampleEnv exampleModule requestNoStream).1
  = 0%nat.
Proof.
  destruct (@open_failure_stops exampleEnv exampleModule requestNoStream
              (mkAccount "alice") (NewErrorBadRequest "invalid stream type"))
    as (_ & Hup & Hcl & _).
  - reflexivity.
  - reflexivity.
  - split; [ exact Hup | exact Hcl ].
Defined.

Lemma query_token_precedence_witness :
  @StreamGETHandler exampleEnv exampleModule requestBothTokens =
  @StreamGETHandler exampleEnv exampleModule requestQueryToken.
Proof.
  apply (@query_token_precedence exampleEnv exampleModule requestQueryToken
           requestBothTokens).
  - discriminate.
  - reflexivity.
  - reflexivity.
Defined.

(** ** Further properties of the inbound pump *)

Section InboundRuns.
Context `{Env}.

Lemma controlFrame_body (msg : gmap string string) (subscribe : bool)
    (key : string) (stream : Stream) :
  controlFrame msg subscribe key →
  readLoopBody (inr msg) stream =
    ([mkLog INFO "received message from websocket: %v"], Continue,
     mkStream (ID stream) (applyFrame subscribe key (StreamTypes stream))
              (Hangup stream)).
Proof.
  intros (Htype & updateStream & Hstream & Hknown & ->).
  simpl. rewrite Htype, Hstream.
  apply slices_Contains_elem_of in Hknown. rewrite Hknown. simpl.
  by destruct subscribe, (msg !! "list").
Qed.

Lemma controlFrame_run (msg : gmap string string) (subscribe : bool)
    (key : string) (rest : list ReadInput) (stream : Stream) :
  controlFrame msg subscribe key →
  StreamTypes (streamAfter (Read (inr msg) :: rest) stream) =
  StreamTypes
    (streamAfter rest
       (mkStream (ID stream) (applyFrame subscribe key (StreamTypes stream))
                 (Hangup stream))).
Proof.
  intros Hframe. unfold streamAfter.
  by rewrite (readFromWSConn_continue _ _ _ _ _ (controlFrame_body _ _ _ _ Hframe)).
Qed.

Lemma entriesOf_absent (key : string) (topics : gmap string bool) :
  topics !! key = None → entriesOf key topics = [].
Proof.
  intros Hnone. unfold entriesOf.
  destruct (filter _ _) as [| [k b] l] eqn:Hl; [ done | exfalso ].
  assert ((k, b) ∈ filter (λ kv : string * bool, kv.1 = key) (map_to_list topics))
    as [Hk Hin]%list_elem_of_filter by (rewrite Hl; by left).
  simpl in Hk. subst k. apply elem_of_map_to_list in Hin. congruence.
Qed.

(** X8. A subscribe frame followed by an unsubscribe frame for the same
    topic key leaves no membership entry for the key; when the key was
    no member before, the topic set is what it was. *)
Theorem subscribe_unsubscribe_round_trip (msg1 msg2 : gmap string string)
    (key : string) (stream : Stream) :
  controlFrame msg1 true key →
  controlFrame msg2 false key →
  let after := StreamTypes
                 (streamAfter [Read (inr msg1); Read (inr msg2)] stream) in
  after = delete key (StreamTypes stream) ∧
  after !! key = None ∧
  entriesOf key after = [] ∧
  (StreamTypes stream !! key = None → after = StreamTypes stream).
Proof.
  intros Hsub Hunsub. cbv zeta.
  rewrite (controlFrame_run _ _ _ _ _ Hsub), (controlFrame_run _ _ _ _ _ Hunsub).
  unfold streamAfter, applyFrame. simpl. rewrite delete_insert_eq.
  split; [ done | split; [ apply lookup_delete_eq | split ] ].
  - apply entriesOf_absent, lookup_delete_eq.
  - apply delete_id.
Qed.

(** X9. Unsubscribing from a topic key that is no member leaves the
    topic set as it is, and a second unsubscribe frame for the key
    changes nothing after the first. *)
Theorem unsubscribe_idempotent (msg1 msg2 : gmap string string) (key : string)
    (stream : Stream) :
  controlFrame msg1 false key →
  controlFrame msg2 false key →
  let once := StreamTypes (streamAfter [Read (inr msg1)] stream) in
  let twice := StreamTypes
                 (streamAfter [Read (inr msg1); Read (inr msg2)] stream) in
  twice = once ∧
  once !! key = None ∧
  (StreamTypes stream !! key = None → once = StreamTypes stream).
Proof.
  intros Hone Htwo. cbv zeta.
  rewrite !(controlFrame_run _ _ _ _ _ Hone), (controlFrame_run _ _ _ _ _ Htwo).
  unfold streamAfter, applyFrame. simpl.
  split; [ apply delete_id, lookup_delete_eq | ].
  split; [ apply lookup_delete_eq | apply delete_id ].
Qed.

(** X10. One iteration of the pump changes the membership of at most
    one topic key: of two different keys, one is as it was. *)
Theorem frame_changes_one_key (r : ReadResult) (stream : Stream)
    (k1 k2 : string) :
  k1 ≠ k2 →
  StreamTypes (readLoopBody r stream).2 !! k1 = StreamTypes stream !! k1 ∨
  StreamTypes (readLoopBody r stream).2 !! k2 = StreamTypes stream !! k2.
Proof.
  intros Hne. destruct r as [err | msg]; simpl; [ by left | ].
  destruct (msg !! "type") as [updateType |]; [ | by left ].
  destruct (msg !! "stream") as [updateStream |]; [ | by left ].
  destruct (negb _); [ by left | ].
  set (key := match msg !! "list" with
              | Some updateList => updateStream +:+ ":" +:+ updateList
              | None => updateStream
              end).
  destruct (decide (k1 = key)) as [-> | Hk1].
  - right. repeat case_decide; simpl; [ | | done ].
    + by rewrite lookup_insert_ne.
    + by rewrite lookup_delete_ne.
  - left. repeat case_decide; simpl; [ | | done ].
    + by rewrite lookup_insert_ne.
    + by rewrite lookup_delete_ne.
Qed.

(** X11. The pump only ever writes [true] into the topic set: when
    every member of the set maps to [true] before a run, every member
    does after it. *)
Theorem topic_values_stay_true (inputs : list ReadInput) (stream : Stream) :
  map_Forall (λ _ b, b = true) (StreamTypes stream) →
  map_Forall (λ _ b, b = true) (StreamTypes (streamAfter inputs stream)).
Proof.
  unfold streamAfter. revert stream.
  induction inputs as [| i inputs IH]; intros stream Hall; [ done | ].
  destruct i as [| r]; [ done | ]. simpl.
  destruct (readLoopBody r stream) as [[logs ctl] stream'] eqn:Hbody.
  assert (map_Forall (λ _ b, b = true) (StreamTypes stream')) as Hall'.
  { destruct r as [err | msg]; simpl in Hbody.
    { by injection Hbody as _ _ <-. }
    destruct (msg !! "type") as [updateType |];
      [ | by injection Hbody as _ _ <- ].
    destruct (msg !! "stream") as [updateStream |];
      [ | by injection Hbody as _ _ <- ].
    destruct (negb _); [ by injection Hbody as _ _ <- | ].
    repeat case_decide; injection Hbody as _ _ <-; simpl; [ | | done ].
    - by apply map_Forall_insert_2.
    - by apply map_Forall_delete. }
  destruct ctl; [ | done ].
  specialize (IH stream' Hall').
  by destruct (readFromWSConn inputs stream') as [[logs' status] stream''].
Qed.

(** X12. The pump leaves the id of the session and its hangup signal
    alone: a run of the pump never closes the hangup signal. *)
Theorem pump_keeps_id_and_hangup (inputs : list ReadInput) (stream : Stream) :
  ID (streamAfter inputs stream) = ID stream ∧
  Hangup (streamAfter inputs stream) = Hangup stream.
Proof.
  unfold streamAfter. revert stream.
  induction inputs as [| i inputs IH]; intros stream; [ done | ].
  destruct i as [| r]; [ done | ]. simpl.
  destruct (readLoopBody r stream) as [[logs ctl] stream'] eqn:Hbody.
  assert (ID stream' = ID stream ∧ Hangup stream' = Hangup stream) as [Hid Hh].
  { destruct r as [err | msg]; simpl in Hbody.
    { by injection Hbody as _ _ <-. }
    repeat case_match; by injection Hbody as _ _ <-. }
  destruct ctl; [ | done ].
  specialize (IH stream').
  destruct (readFromWSConn inputs stream') as [[logs' status] stream''].
  simpl in *. destruct IH as [-> ->]. done.
Qed.

Lemma readFromWSConn_app (xs ys : list ReadInput) (stream : Stream) :
  readFromWSConn (xs ++ ys) stream =
    match (readFromWSConn xs stream).1.2 with
    | Returned => readFromWSConn xs stream
    | Blocked =>
        (logsOf xs stream ++ logsOf ys (streamAfter xs stream),
         (readFromWSConn ys (streamAfter xs stream)).1.2,
         streamAfter ys (streamAfter xs stream))
    end.
Proof.
  unfold logsOf, streamAfter. revert stream.
  induction xs as [| i xs IH]; intros stream.
  - simpl. by destruct (readFromWSConn ys stream) as [[logs status] stream'].
  - destruct i as [| r]; [ done | ]. simpl.
    destruct (readLoopBody r stream) as [[logs ctl] stream'].
    destruct ctl; [ | done ].
    rewrite IH.
    destruct (readFromWSConn xs stream') as [[logs' status] stream''].
    simpl. destruct status; [ done | ].
    by rewrite app_assoc.
Qed.

(** X13. Once the pump has returned it reads nothing more: whatever
    follows on the connection, the log and the session are those of
    the run that made it return. *)
Theorem returned_pump_ignores_rest (xs ys : list ReadInput) (stream : Stream) :
  (readFromWSConn xs stream).1.2 = Returned →
  readFromWSConn (xs ++ ys) stream = readFromWSConn xs stream.
Proof. intros Hret. by rewrite readFromWSConn_app, Hret. Qed.

(** X14. A pump that is blocked on the connection goes on from where
    it stands: a run on two batches of inputs is the run on the second
    batch from the session that the first left, with the logs in
    order. *)
Theorem blocked_pump_resumes (xs ys : list ReadInput) (stream : Stream) :
  (readFromWSConn xs stream).1.2 = Blocked →
  readFromWSConn (xs ++ ys) stream =
    (logsOf xs stream ++ logsOf ys (streamAfter xs stream),
     (readFromWSConn ys (streamAfter xs stream)).1.2,
     streamAfter ys (streamAfter xs stream)).
Proof. intros Hblocked. by rewrite readFromWSConn_app, Hblocked. Qed.

Lemma readLoopBody_logs (r : ReadResult) (stream : Stream) :
  let logs := (readLoopBody r stream).1.1 in
  match r with
  | inl _ => (length (List.filter isError logs) ≤ 1)%nat
  | inr _ =>
      List.filter isError logs = [] ∧
      ∃ e, last logs = Some e ∧ (lvl e = INFO ∨ lvl e = WARN)
  end.
Proof.
  destruct r as [err | msg]; simpl.
  - destruct (IsUnexpectedCloseError _ _); simpl; lia.
  - repeat case_match; simpl; (split; [ done | ]); eexists; (split; [ done | ]);
      simpl; by eauto.
Qed.

(** X15. A run of the pump logs at most one error-level line, and only
    when it returns; and the pump has returned exactly when the last
    line of its log is the line that it has finished. *)
Theorem pump_log_shape (inputs : list ReadInput) (stream : Stream) :
  let logs := logsOf inputs stream in
  let status := (readFromWSConn inputs stream).1.2 in
  (length (List.filter isError logs) ≤ 1)%nat ∧
  (status = Blocked → List.filter isError logs = []) ∧
  (status = Returned ↔
   last logs = Some (mkLog DEBUG "finished reading from websocket connection")).
Proof.
  unfold logsOf. revert stream.
  induction inputs as [| i inputs IH]; intros stream.
  - simpl. split; [ lia | split; [ done | split; done ] ].
  - destruct i as [| r].
    { simpl. split; [ lia | split; [ done | split; done ] ]. }
    pose proof (readLoopBody_logs r stream) as Hlogs.
    pose proof (readLoopBody_ctl r stream) as Hctl.
    simpl. destruct (readLoopBody r stream) as [[logs ctl] stream'].
    simpl in Hlogs, Hctl. destruct r as [err | msg]; subst ctl; simpl.
    + rewrite List.filter_app, length_app, last_snoc. simpl.
      split; [ lia | split; [ done | split; done ] ].
    + destruct Hlogs as (Hnone & e & Hlast & Hlvl).
      specialize (IH stream').
      destruct (readFromWSConn inputs stream') as [[logs' status] stream''].
      simpl in *. destruct IH as (Hle & Hblocked & Hret).
      rewrite List.filter_app, Hnone. simpl.
      split; [ done | split; [ done | ] ].
      rewrite Hret. destruct logs' as [| e' logs'].
      * rewrite app_nil_r, Hlast. simpl.
        split; [ done | ]. intros [= ->]. by destruct Hlvl.
      * by rewrite last_app_cons.
Qed.

(** X16. A frame adds at most one key: after a run, the topic set has
    at most as many keys more as frames were read. *)
Theorem topic_set_growth (inputs : list ReadInput) (stream : Stream) :
  (size (StreamTypes (streamAfter inputs stream)) ≤
   size (StreamTypes stream) + length (List.filter isReadFrame inputs))%nat.
Proof.
  unfold streamAfter. revert stream.
  induction inputs as [| i inputs IH]; intros stream; simpl; [ lia | ].
  destruct i as [| r]; simpl; [ lia | ].
  destruct (readLoopBody r stream) as [[logs ctl] stream'] eqn:Hbody.
  destruct r as [err | msg].
  { simpl in Hbody. injection Hbody as _ <- <-. simpl. lia. }
  assert (size (StreamTypes stream') ≤ S (size (StreamTypes stream)))%nat as Hstep.
  { simpl in Hbody.
    destruct (msg !! "type") as [updateType |];
      [ | injection Hbody as _ _ <-; lia ].
    destruct (msg !! "stream") as [updateStream |];
      [ | injection Hbody as _ _ <-; lia ].
    destruct (negb _); [ injection Hbody as _ _ <-; lia | ].
    repeat case_decide; injection Hbody as _ _ <-; simpl; [ | | lia ].
    - rewrite map_size_insert. case_match; unfold id; lia.
    - rewrite map_size_delete. case_match; unfold id; lia. }
  pose proof (readLoopBody_ctl (inr msg) stream) as Hctl.
  rewrite Hbody in Hctl. simpl in Hctl. subst ctl.
  specialize (IH stream').
  destruct (readFromWSConn inputs stream') as [[logs' status] stream''].
  simpl in *. lia.
Qed.

(** X17. Control frames for different topic keys commute: the topic set
    after two well-formed frames does not depend on their order. *)
Theorem frames_commute (msg1 msg2 : gmap string string) (b1 b2 : bool)
    (k1 k2 : string) (stream : Stream) :
  controlFrame msg1 b1 k1 →
  controlFrame msg2 b2 k2 →
  k1 ≠ k2 →
  StreamTypes (streamAfter [Read (inr msg1); Read (inr msg2)] stream) =
  StreamTypes (streamAfter [Read (inr msg2); Read (inr msg1)] stream).
Proof.
  intros H1 H2 Hne.
  rewrite !(controlFrame_run _ _ _ _ _ H1), !(controlFrame_run _ _ _ _ _ H2).
  rewrite (controlFrame_run _ _ _ _ _ H1).
  unfold streamAfter, applyFrame. simpl.
  destruct b1, b2.
  - by apply insert_insert_ne.
  - by rewrite delete_insert_ne.
  - by rewrite delete_insert_ne.
  - apply delete_delete.
Qed.

End InboundRuns.

(** *** Runs of the inbound pump on the example frames *)

Lemma subscribe_unsubscribe_round_trip_witness :
  StreamTypes (@streamAfter exampleEnv
                 [Read (inr frameSubscribePublic); Read (inr frameUnsubscribePublic)]
                 exampleStream)
  = StreamTypes exampleStream.
Proof.
  destruct (@subscribe_unsubscribe_round_trip exampleEnv frameSubscribePublic
              frameUnsubscribePublic "public" exampleStream) as (_ & _ & _ & Hback).
  - split; [ reflexivity | ]. exists "public".
    split; [ reflexivity | split; [ simpl; left | reflexivity ] ].
  - split; [ reflexivity | ]. exists "public".
    split; [ reflexivity | split; [ simpl; left | reflexivity ] ].
  - apply Hback. reflexivity.
Defined.

Lemma unsubscribe_idempotent_witness :
  StreamTypes (@streamAfter exampleEnv
                 [Read (inr frameUnsubscribePublic); Read (inr frameUnsubscribePublic)]
                 exampleStream)
  = StreamTypes (@streamAfter exampleEnv [Read (inr frameUnsubscribePublic)]
                   exampleStream).
Proof.
  destruct (@unsubscribe_idempotent exampleEnv frameUnsubscribePublic
              frameUnsubscribePublic "public" exampleStream) as (Hsame & _).
  - split; [ reflexivity | ]. exists "public".
    split; [ reflexivity | split; [ simpl; left | reflexivity ] ].
  - split; [ reflexivity | ]. exists "public".
    split; [ reflexivity | split; [ simpl; left | reflexivity ] ].
  - exact Hsame.
Defined.

Lemma frame_changes_one_key_witness :
  StreamTypes (@readLoopBody exampleEnv (inr frameSubscribePublic) exampleStream).2
    !! "public" = StreamTypes exampleStream !! "public" ∨
  StreamTypes (@readLoopBody exampleEnv (inr frameSubscribePublic) exampleStream).2
    !! "user" = StreamTypes exampleStream !! "user".
Proof.
  apply (@frame_changes_one_key exampleEnv (inr frameSubscribePublic)
           exampleStream "public" "user").
  discriminate.
Defined.

Lemma topic_values_stay_true_witness :
  map_Forall (λ _ b, b = true)
    (StreamTypes (@streamAfter exampleEnv
                    [Read (inr frameSubscribePublic); Read (inr frameUnsubscribeUser)]
                    exampleStream)).
Proof.
  apply (@topic_values_stay_true exampleEnv).
  simpl. apply map_Forall_singleton. reflexivity.
Defined.

Lemma returned_pump_ignores_rest_witness :
  @readFromWSConn exampleEnv
    ([Read (inl OtherError)] ++ [Read (inr frameSubscribePublic)]) exampleStream
  = ([mkLog DEBUG "finished reading from websocket connection"], Returned,
     exampleStream).
Proof.
  rewrite (@returned_pump_ignores_rest exampleEnv [Read (inl OtherError)]
             [Read (inr frameSubscribePublic)] exampleStream).
  - reflexivity.
  - reflexivity.
Defined.

Lemma blocked_pump_resumes_witness :
  (@readFromWSConn exampleEnv
     ([Read (inr frameSubscribePublic)] ++ [Read (inl OtherError)]) exampleStream).1.2
  = Returned.
Proof.
  rewrite (@blocked_pump_resumes exampleEnv [Read (inr frameSubscribePublic)]
             [Read (inl OtherError)] exampleStream).
  - reflexivity.
  - reflexivity.
Defined.

Lemma frames_commute_witness :
  StreamTypes (@streamAfter exampleEnv
                 [Read (inr frameSubscribePublic); Read (inr frameUnsubscribeUser)]
                 exampleStream)
  = StreamTypes (@streamAfter exampleEnv
                   [Read (inr frameUnsubscribeUser); Read (inr frameSubscribePublic)]
                   exampleStream).
Proof.
  apply (@frames_commute exampleEnv frameSubscribePublic frameUnsubscribeUser
           true false "public" "user" exampleStream).
  - split; [ reflexivity | ]. exists "public".
    split; [ reflexivity | split; [ simpl; left | reflexivity ] ].
  - split; [ reflexivity | ]. exists "user".
    split; [ reflexivity | split; [ simpl; right; left | reflexivity ] ].
  - discriminate.
Defined.

(** ** Further properties of the outbound pump *)

Section OutboundRuns.
Variable m : Module.

Lemma writeLoopBody_continues (w : WriteInput) (pinger : Ticker) :
  (writeLoopBody m w pinger).1.1.2 = (if writeContinues w then Continue else Break) ∧
  (writeLoopBody m w pinger).1.2 = frameOf w.
Proof. by destruct w as [| msg [|] | [|]]. Qed.

(** X18. The frames that reach the connection are those of the writes
    that succeeded before the pump left its loop, in the order of the
    loop: the events among them are the messages taken from the
    session, in the order they were taken, and nothing is written after
    a write failed or the scope was cancelled. *)
Theorem written_in_order (inputs : list WriteInput) (pinger : Ticker) :
  let frames := (writeToWSConn m inputs pinger).1.2 in
  frames = mjoin (frameOf <$> served inputs) ∧
  omap eventOf frames = omap messageOf (served inputs) ∧
  served inputs `prefix_of` inputs.
Proof.
  cbv zeta. revert pinger.
  induction inputs as [| w inputs IH]; intros pinger; [ done | ].
  destruct (writeLoopBody_continues w pinger) as [Hctl Hframes].
  simpl. destruct (writeLoopBody m w pinger) as [[[logs ctl] frames] pinger'].
  simpl in Hctl, Hframes. subst ctl frames.
  destruct (writeContinues w) eqn:Hw.
  - specialize (IH pinger').
    destruct (writeToWSConn m inputs pinger') as [[[logs' status] frames'] pinger''].
    simpl in *. destruct IH as (-> & Hev & Hpre).
    split; [ done | split; [ | by apply prefix_cons ] ].
    rewrite omap_app, Hev. by destruct w as [| msg [|] | [|]].
  - simpl. split; [ by destruct w as [| msg [|] | [|]] | ].
    split; [ by destruct w as [| msg [|] | [|]] | apply prefix_nil ].
Qed.


(** X20. The outbound pump logs at trace and debug level only: a
    failed write is never an error-level, warning or info line. *)
Theorem writer_logs_low_severity (inputs : list WriteInput) (pinger : Ticker) :
  Forall (λ e, lowSeverity e = true) (writeToWSConn m inputs pinger).1.1.1.
Proof.
  revert pinger. induction inputs as [| w inputs IH]; intros pinger; [ done | ].
  simpl.
  destruct w as [| msg [|] | [|]]; simpl; try by repeat constructor.
  - specialize (IH (Ticker_Reset pinger (dTicker m))).
    destruct (writeToWSConn m inputs _) as [[[logs' status] frames'] pinger''].
    simpl in *. by constructor.
  - specialize (IH pinger).
    destruct (writeToWSConn m inputs _) as [[[logs' status] frames'] pinger''].
    simpl in *. by constructor.
Qed.

(** X21. The goroutine of the outbound pump cancels the scope exactly
    when the pump met a cancelled scope, a failed write of an event or
    a failed ping; as long as every write succeeds it stays in its
    loop. *)
Theorem writerGoroutine_cancels (inputs : list WriteInput) (pinger : Ticker) :
  (writerGoroutine m inputs pinger).1.1.2 = true ↔
  ∃ w, w ∈ inputs ∧ writeContinues w = false.
Proof.
  unfold writerGoroutine. revert pinger.
  induction inputs as [| w inputs IH]; intros pinger.
  { simpl. split; [ done | by intros (w & ?%elem_of_nil & _) ]. }
  destruct (writeLoopBody_continues w pinger) as [Hctl _].
  simpl. destruct (writeLoopBody m w pinger) as [[[logs ctl] frames] pinger'].
  simpl in Hctl. subst ctl.
  destruct (writeContinues w) eqn:Hw.
  - specialize (IH pinger').
    destruct (writeToWSConn m inputs pinger') as [[[logs' status] frames'] pinger''].
    simpl in *. rewrite IH. split.
    + intros (w' & Hin & Hw'). exists w'. split; [ by right | done ].
    + intros (w' & [-> | Hin]%elem_of_cons & Hw'); [ congruence | by exists w' ].
  - simpl. split; [ intros _ | done ]. exists w. split; [ by left | done ].
Qed.

End OutboundRuns.

(** ** Further properties of the connection *)

Section ConnectionRuns.
Context `{Env} (m : Module).

(** Inversion of [step]. *)
Lemma step_shape (l : Label) (s s' : Session) :
  step m l s = Next s' → stepShape m l s s'.
Proof.
  destruct s as [done co rd wr st cc pg wn lg].
  destruct l as [ | | | ok | | | | | r | | w | ];
    destruct co, rd, wr; simpl; try discriminate.
  all: try (destruct (readLoopBody r st) as [[logs' ctl] st']; destruct ctl; simpl).
  all: try (destruct w as [| msg [|] | [|]]; simpl).
  all: try (destruct done; simpl; try discriminate).
  all: try (destruct (Hangup st) eqn:Hhang; simpl; try discriminate).
  all: intros Heq; injection Heq as <-; by repeat split.
Qed.

Lemma readLoopBody_stream (r : ReadResult) (stream : Stream) :
  ID (readLoopBody r stream).2 = ID stream ∧
  (StreamTypes (readLoopBody r stream).2 ≠ StreamTypes stream →
   ∃ msg, r = inr msg).
Proof.
  destruct r as [err | msg]; simpl; [ done | ].
  split; [ repeat case_match; done | by eexists ].
Qed.


Ltac step_cases l Hstep :=
  apply step_shape in Hstep;
  destruct l as [ | | | ok | | | | | r | | w | ]; simpl in Hstep;
  [ destruct Hstep as (Hco & ->)
  | destruct Hstep as (Hco & ->)
  | destruct Hstep as (Hco & Hdone & ->)
  | destruct Hstep as (Hco & ->)
  | destruct Hstep as (Hco & Hopen & ->)
  | destruct Hstep as (Hco & ->)
  | destruct Hstep as (Hco & ->)
  | destruct Hstep as (Hrd & ->)
  | destruct Hstep as (Hrd & ->)
  | destruct Hstep as (Hrd & ->)
  | destruct Hstep as (Hwr & Hdone & ->)
  | destruct Hstep as (Hwr & ->) ];
  simpl.





(** X23. The scope of a connection is cancelled by its pumps only, and
    for good: a step that cancels it is the return of the inbound or of
    the outbound pump ([handleWSConn] itself never cancels), and no step
    undoes the cancellation. *)
Theorem scope_cancelled_by_pumps (l : Label) (s s' : Session) :
  step m l s = Next s' →
  (ctxDone s = true → ctxDone s' = true) ∧
  (ctxDone s = false → ctxDone s' = true →
   (l = ReaderReturn ∧ reader s' = RExited) ∨
   (l = WriterReturn ∧ writer s' = WExited)).
Proof.
  intros Hstep. step_cases l Hstep; split; try done; try congruence;
    intros _ _; [ by left | by right ].
Qed.

(** X24. Each part of a connection minds its own: the topic set of the
    session is changed by the inbound pump alone, in an iteration that
    read a frame; frames reach the connection through the outbound pump
    alone; and no step changes the id of the session. *)
Theorem pumps_mind_their_own (l : Label) (s s' : Session) :
  step m l s = Next s' →
  (StreamTypes (stream s') ≠ StreamTypes (stream s) →
   ∃ msg, l = ReaderReadJSON (inr msg)) ∧
  (written s' ≠ written s → ∃ w, l = WriterAtSelect w) ∧
  ID (stream s') = ID (stream s).
Proof.
  intros Hstep. step_cases l Hstep; try (by repeat split).
  - destruct (readLoopBody_stream r (stream s)) as [Hid Htopics].
    split; [ | by split ].
    intros (msg & ->)%Htopics. by exists msg.
  - split; [ done | split; [ | done ] ]. intros _. by exists w.
Qed.


End ConnectionRuns.

(** *** Teardown on the example schedules *)


Lemma scope_cancelled_by_pumps_witness :
  ∃ s', @step exampleEnv exampleModule ReaderReturn sessionReaderLeft = Next s' ∧
        ((ReaderReturn = ReaderReturn ∧ reader s' = RExited) ∨
         (ReaderReturn = WriterReturn ∧ writer s' = WExited)).
Proof.
  eexists. split; [ reflexivity | ].
  edestruct (@scope_cancelled_by_pumps exampleEnv exampleModule ReaderReturn
               sessionReaderLeft) as (_ & Hcancel); [ reflexivity | ].
  apply Hcancel; reflexivity.
Defined.

Lemma pumps_mind_their_own_witness :
  ∃ s', @step exampleEnv exampleModule (ReaderReadJSON (inr frameSubscribePublic))
          sessionReading = Next s' ∧
        ID (stream s') = ID (stream sessionReading).
Proof.
  eexists. split; [ reflexivity | ].
  edestruct (@pumps_mind_their_own exampleEnv exampleModule
               (ReaderReadJSON (inr frameSubscribePublic)) sessionReading)
    as (_ & _ & Hid); [ reflexivity | ].
  exact Hid.
Defined.

